(** * crawl.cpp: the fetch-and-discover engine, embedded in Rocq

    The development follows [src/crawl.cpp]:

    - [CString]: the libc string functions the crawler calls
      ([strlen], [strncmp], [strstr]);
    - [libxml2]: the HTML and URI collaborator, an interface (the crawler
      treats it as a capability), with the public [xmlURI] structure;
    - [NGraph]: the topology graph [network];
    - [Curl]: the multi handle, as the multiset of attached easy handles,
      and the completion messages [curl_multi_info_read] returns;
    - [follow_links], [is_html] and the completion branch of [main], then
      the run loop over the rounds the transport delivers;
    - [Sample] and [Runs]: a small concrete environment and the runs the
      statements are evaluated on;
    - [writer], the command line ([has_flag], [Stoi], [parse_args]) and the
      end of [main] ([summarize], [exit_status]).

    Integers: [int] and [long] values are [Z], [size_t] values are [N].
    Signed overflow is undefined in C++, so the counters [pending] and
    [complete] are followed on the runs where they stay in the range of
    [int]; the one narrowing conversion of the source, [(int)res_status],
    is written out as [int_of_long]. *)

From Stdlib Require Import ZArith NArith Ascii String List Lia.
From stdpp Require Import base option gmap strings list.

#[local] Set Warnings "-clear-no-such-hyp".

Local Open Scope string_scope.
Local Open Scope list_scope.

(** ** libc strings *)

Module CString.

(** A C string holds no NUL before its end. *)
Fixpoint no_nul (s : string) : bool :=
  match s with
  | EmptyString => true
  | String c r => negb (Ascii.eqb c Ascii.zero) && no_nul r
  end.

(** The value of a character as [unsigned char]. *)
Definition uchar (c : ascii) : Z := Z.of_N (N_of_ascii c).

Definition strlen (s : string) : N := N.of_nat (String.length s).

(** [strncmp s1 s2 n]: at most [n] characters are compared; the end of a
    string reads as the terminating NUL. *)
Fixpoint strncmp (s1 s2 : string) (n : nat) : Z :=
  match n with
  | O => 0
  | S n' =>
      match s1, s2 with
      | EmptyString, EmptyString => 0
      | EmptyString, String c2 _ => (0 - uchar c2)%Z
      | String c1 _, EmptyString => (uchar c1 - 0)%Z
      | String c1 r1, String c2 r2 =>
          if Ascii.eqb c1 c2 then strncmp r1 r2 n'
          else (uchar c1 - uchar c2)%Z
      end
  end.

(** [strstr haystack needle]: the suffix of [haystack] that starts at the
    first occurrence of [needle], [None] for the null pointer. *)
Fixpoint strstr (haystack needle : string) : option string :=
  if String.prefix needle haystack then Some haystack
  else match haystack with
       | EmptyString => None
       | String _ r => strstr r needle
       end.

End CString.

Import CString.

(** ** libxml2 *)

(** [struct _xmlURI] of [libxml/uri.h]; a null [char *] is [None]. *)
Record xmlURI : Type := mk_xmlURI {
  scheme : option string;
  opaque : option string;
  authority : option string;
  server : option string;
  user : option string;
  port : Z;
  path : option string;
  query : option string;
  fragment : option string;
  cleanup : Z;
  query_raw : option string
}.

(** [uri->fragment = f] *)
Definition set_fragment (uri : xmlURI) (f : option string) : xmlURI :=
  {| scheme := scheme uri; opaque := opaque uri; authority := authority uri;
     server := server uri; user := user uri; port := port uri;
     path := path uri; query := query uri; fragment := f;
     cleanup := cleanup uri; query_raw := query_raw uri |}.

(** What [follow_links] asks of libxml2.  [href_nodes mem url] stands for
    [htmlReadMemory] on the body, the XPath query [//a/@href] and
    [xmlNodeListGetString] on each node of the node set, in document order:
    [None] when the document or the XPath result is null, a null string as
    [None] inside the list.  [xmlParseURIReference] writes into the [xmlURI]
    it is given, so it takes the old structure and gives the new one. *)
Class libxml2 : Type := {
  href_nodes : string -> string -> option (list (option string));
  xmlBuildURI : option string -> string -> option string;
  xmlCreateURI : xmlURI;
  xmlParseURIReference : xmlURI -> option string -> xmlURI;
  xmlSaveUri : xmlURI -> option string
}.

(** ** The topology graph *)

Module NGraph.

(** Modelled from the spec: [ngraph.hpp] ([NGraph::tGraph<string>]) is not
    among the sources.  The spec's data model has the graph as a mapping from
    a URL to its set of outbound URLs, with membership of a node ([find]) and
    [insert_edge], which creates missing end points. *)
Abbreviation tGraph := (gmap string (gset string)).

Definition find (g : tGraph) (v : string) : option (gset string) := g !! v.

Definition insert_vertex (g : tGraph) (v : string) : tGraph :=
  match g !! v with
  | Some _ => g
  | None => <[v := ∅]> g
  end.

Definition out_neighbors (g : tGraph) (v : string) : gset string :=
  default ∅ (g !! v).

Definition insert_edge (g : tGraph) (a b : string) : tGraph :=
  let g := insert_vertex (insert_vertex g a) b in
  <[a := {[ b ]} ∪ out_neighbors g a]> g.

Definition num_nodes (g : tGraph) : nat := size g.

End NGraph.

Import NGraph.

(** ** libcurl *)

Module Curl.

(** An easy handle is known by the URL [make_handle] was given. *)
Definition CURL : Type := string.

(** The multi handle: the easy handles attached to it, and the log of
    every [curl_multi_add_handle] call, oldest first.  Nothing reads the
    log; it is what "scheduled" means in the statements below. *)
Record CURLM : Type := mk_CURLM {
  handles : list CURL;
  added : list CURL
}.

Definition curl_multi_init : CURLM := {| handles := []; added := [] |}.

Definition curl_multi_add_handle (mh : CURLM) (h : CURL) : CURLM :=
  {| handles := handles mh ++ [h]; added := added mh ++ [h] |}.

Fixpoint remove_first (h : CURL) (l : list CURL) : list CURL :=
  match l with
  | [] => []
  | x :: r => if String.eqb x h then r else x :: remove_first h r
  end.

Definition curl_multi_remove_handle (mh : CURLM) (h : CURL) : CURLM :=
  {| handles := remove_first h (handles mh); added := added mh |}.

Inductive CURLMSG : Type := CURLMSG_NONE | CURLMSG_DONE.

Definition CURLE_OK : Z := 0.

(** A message of [curl_multi_info_read], with what [curl_easy_getinfo]
    reports for its handle when the message is read. *)
Record CURLMsg : Type := mk_CURLMsg {
  msg : CURLMSG;
  easy_handle : CURL;
  result : Z;                      (* m->data.result *)
  private_mem : string;            (* CURLINFO_PRIVATE: the body buffer *)
  effective_url : string;          (* CURLINFO_EFFECTIVE_URL *)
  response_code : Z;               (* CURLINFO_RESPONSE_CODE, a long *)
  content_type : option string     (* CURLINFO_CONTENT_TYPE, may be null *)
}.

End Curl.

Import Curl.

(** ** Parameters and flags (lines 46-57) *)

Record params : Type := mk_params {
  max_con : Z;
  max_total : Z;
  max_requests : Z;
  max_link_per_page : N;
  follow_relative_links : Z;
  start_url : string
}.

Definition default_params (seed : string) : params :=
  {| max_con := 200; max_total := 20000; max_requests := 500;
     max_link_per_page := 20; follow_relative_links := 1;
     start_url := seed |}.

Definition make_handle (url : string) : CURL := url.

(** [(int)res_status] *)
Definition int_of_long (z : Z) : Z :=
  ((z + 2147483648) mod 4294967296 - 2147483648)%Z.

(** ** follow_links (lines 111-173) *)

Section FollowLinks.

Context `{libxml2}.
Variable p : params.
Variable url : string.

(** Lines 143-152: the href is resolved against [url], parsed into [uri],
    the fragment is cleared and the URI is saved again. *)
Definition resolve (href : option string) : option string :=
  if (follow_relative_links p =? 0)%Z then href else xmlBuildURI href url.

Definition next_link (uri : xmlURI) (href : option string)
  : xmlURI * option string :=
  let href := resolve href in
  let uri := xmlParseURIReference uri href in
  let uri := set_fragment uri None in
  (uri, xmlSaveUri uri).

(** Line 155 *)
Definition is_http (link : string) : bool :=
  (strncmp link "http://" 7 =? 0)%Z || (strncmp link "https://" 8 =? 0)%Z.

(** The [for] loop of lines 140-169 from node [i] on: [nodes] are the
    hrefs still to visit, [count] is a [size_t] that counts list elements. *)
Fixpoint follow_links_loop (nodes : list (option string)) (uri : xmlURI)
    (count : N) (network : tGraph) (mh : CURLM) : tGraph * CURLM * N :=
  match nodes with
  | [] => (network, mh, count)
  | href :: rest =>
      let '(uri, link) := next_link uri href in
      match link with
      | None => follow_links_loop rest uri count network mh
      | Some link =>
          if (strlen link <? 20)%N
          then follow_links_loop rest uri count network mh
          else if is_http link then
            match NGraph.find network link with
            | Some _ =>
                follow_links_loop rest uri count
                  (insert_edge network url link) mh
            | None =>
                let network := insert_edge network url link in
                let mh := curl_multi_add_handle mh (make_handle link) in
                if (count =? max_link_per_page p)%N
                then (network, mh, N.succ count)
                else follow_links_loop rest uri (N.succ count) network mh
            end
          else follow_links_loop rest uri count network mh
      end
  end.

Definition follow_links (network : tGraph) (mh : CURLM) (mem : string)
  : tGraph * CURLM * N :=
  if negb (strncmp url (start_url p) (String.length (start_url p)) =? 0)%Z
  then (network, mh, 0%N)
  else
    match href_nodes mem url with
    | None => (network, mh, 0%N)
    | Some [] => (network, mh, 0%N)
    | Some nodes => follow_links_loop nodes xmlCreateURI 0%N network mh
    end.

End FollowLinks.

(** ** is_html (lines 175-177) *)

Definition is_html (ctype : option string) : bool :=
  match ctype with
  | None => false
  | Some c =>
      (10 <? strlen c)%N &&
      match strstr c "text/html" with Some _ => true | None => false end
  end.

(** ** The run loop of main (lines 266-319) *)

Record state : Type := mk_state {
  network : tGraph;
  multi_handle : CURLM;
  pending : Z;
  complete : Z;
  broken_links : list (Z * string);
  still_running : Z
}.

(** Lines 266-274: the seed handle is attached, the counters start at 0. *)
Definition initial (p : params) : state :=
  {| network := ∅;
     multi_handle := curl_multi_add_handle curl_multi_init
                       (make_handle (start_url p));
     pending := 0; complete := 0; broken_links := [];
     still_running := 1 |}.

(** Line 298 *)
Definition admission (p : params) (st : state) : bool :=
  (pending st <? max_requests p)%Z &&
  (complete st + pending st <? max_total p)%Z.

(** One turn of the outer [while]: what the environment shows it. *)
Record round : Type := mk_round {
  pending_interrupt : bool;  (* the flag when the loop condition is read *)
  running : Z;               (* the value curl_multi_perform reports *)
  msgs : list CURLMsg        (* the queue curl_multi_info_read drains *)
}.

Section Main.

Context `{libxml2}.
Variable p : params.

(** Lines 289-311: the branch taken for a finished transfer. *)
Definition classify (st : state) (m : CURLMsg) : state :=
  if (result m =? CURLE_OK)%Z then
    if (response_code m =? 200)%Z then
      if is_html (content_type m)
         && (100 <? N.of_nat (String.length (private_mem m)))%N then
        if admission p st then
          let '(net, mh, n) :=
            follow_links p (effective_url m) (network st) (multi_handle st)
              (private_mem m) in
          {| network := net; multi_handle := mh;
             pending := (pending st + Z.of_N n)%Z;
             complete := complete st; broken_links := broken_links st;
             still_running := 1 |}
        else st
      else st
    else
      {| network := network st; multi_handle := multi_handle st;
         pending := pending st; complete := complete st;
         broken_links :=
           broken_links st ++
             [(int_of_long (response_code m), effective_url m)];
         still_running := still_running st |}
  else st.

(** Lines 312-316: the handle is removed and the counters move. *)
Definition retire (st : state) (m : CURLMsg) : state :=
  {| network := network st;
     multi_handle := curl_multi_remove_handle (multi_handle st)
                       (easy_handle m);
     pending := (pending st - 1)%Z;
     complete := (complete st + 1)%Z;
     broken_links := broken_links st;
     still_running := still_running st |}.

(** Lines 283-317: one message of the inner [while]. *)
Definition on_msg (st : state) (m : CURLMsg) : state :=
  match msg m with
  | CURLMSG_DONE => retire (classify st m) m
  | CURLMSG_NONE => st
  end.

(** Lines 282-318: the messages one call of [curl_multi_perform] left. *)
Definition read_msgs (st : state) (msgs : list CURLMsg) : state :=
  fold_left on_msg msgs st.

(** Lines 277-278: [curl_multi_perform] stores the number of running
    transfers in [still_running]. *)
Definition enter_round (st : state) (r : round) : state :=
  {| network := network st; multi_handle := multi_handle st;
     pending := pending st; complete := complete st;
     broken_links := broken_links st; still_running := running r |}.

(** Lines 275-319 over the rounds the transport delivers. *)
Fixpoint main_loop (rounds : list round) (st : state) : state :=
  match rounds with
  | [] => st
  | r :: rest =>
      if negb (still_running st =? 0)%Z && negb (pending_interrupt r)
      then main_loop rest (read_msgs (enter_round st r) (msgs r))
      else st
  end.

Definition crawl (rounds : list round) : state :=
  main_loop rounds (initial p).

End Main.

(** ** A sample environment

    Concrete runs need a concrete collaborator.  [Sample.xml] is enough for
    pages whose anchors are written [<a href='...'>] with absolute URLs: the
    hrefs are read off the body in document order, resolving an absolute
    href against the base gives it back, and a URI reference is cut at its
    first [#]. *)

Module Sample.

Fixpoint until (c : ascii) (s : string) : string :=
  match s with
  | EmptyString => EmptyString
  | String a r => if Ascii.eqb a c then EmptyString else String a (until c r)
  end.

Fixpoint after (c : ascii) (s : string) : option string :=
  match s with
  | EmptyString => None
  | String a r => if Ascii.eqb a c then Some r else after c r
  end.

Fixpoint skip (n : nat) (s : string) : string :=
  match n, s with
  | S n', String _ r => skip n' r
  | _, _ => s
  end.

Fixpoint anchors (body : string) : list (option string) :=
  match body with
  | EmptyString => []
  | String _ r =>
      if String.prefix "href='" body
      then Some (until "'" (skip 6 body)) :: anchors r
      else anchors r
  end.

Definition empty_uri : xmlURI :=
  {| scheme := None; opaque := None; authority := None; server := None;
     user := None; port := 0; path := None; query := None;
     fragment := None; cleanup := 0; query_raw := None |}.

Definition parse (uri : xmlURI) (href : option string) : xmlURI :=
  match href with
  | None => uri
  | Some s =>
      {| scheme := None; opaque := None; authority := None; server := None;
         user := None; port := 0; path := Some (until "#" s); query := None;
         fragment := after "#" s; cleanup := 0; query_raw := None |}
  end.

Definition save (uri : xmlURI) : option string :=
  Some (default "" (path uri) +:+
        match fragment uri with Some f => "#" +:+ f | None => "" end).

#[global] Instance xml : libxml2 :=
  {| href_nodes := fun mem _ => Some (anchors mem);
     xmlBuildURI := fun href _ => href;
     xmlCreateURI := empty_uri;
     xmlParseURIReference := parse;
     xmlSaveUri := save |}.

Definition seed : string := "http://www.example.com/".

(** A finished transfer of [h]: transport result OK, no redirect. *)
Definition done (h : string) (status : Z) (ctype : string) (body : string)
  : CURLMsg :=
  {| msg := CURLMSG_DONE; easy_handle := h; result := CURLE_OK;
     private_mem := body; effective_url := h; response_code := status;
     content_type := Some ctype |}.

(** A transfer of [h] that failed in the transport (CURLE_COULDNT_CONNECT). *)
Definition failed (h : string) : CURLMsg :=
  {| msg := CURLMSG_DONE; easy_handle := h; result := 7;
     private_mem := ""; effective_url := h; response_code := 0;
     content_type := None |}.

Definition html : string := "text/html; charset=utf-8".

(** Five outbound links. *)
Definition page5 : string :=
  "<html><head><title>index</title></head><body>" +:+
  "<a href='http://www.example.com/a.html'>a</a>" +:+
  "<a href='http://www.example.com/b.html'>b</a>" +:+
  "<a href='http://www.example.com/c.html'>c</a>" +:+
  "<a href='http://www.example.com/d.html'>d</a>" +:+
  "<a href='http://www.example.com/e.html'>e</a>" +:+
  "</body></html>".

(** A page whose first anchor is the page itself. *)
Definition page_self : string :=
  "<html><head><title>index</title></head><body>" +:+
  "<a href='http://www.example.com/'>home</a>" +:+
  "<a href='http://www.example.com/a.html'>a</a>" +:+
  "</body></html>".

(** A page with one link, to [f.html]. *)
Definition page_a : string :=
  "<html><head><title>a</title></head><body><p>Lorem ipsum dolor sit " +:+
  "amet.</p><a href='http://www.example.com/f.html'>f</a></body></html>".

End Sample.

(** ** Invariants of the run loop *)

Section Invariants.

Context `{libxml2}.
Variable p : params.

(** The counters against the multi handle: [pending] is one behind the
    number of attached handles, and every handle ever attached is either
    complete or still attached. *)
Definition counted (st : state) : Prop :=
  Z.of_nat (length (handles (multi_handle st))) = (pending st + 1)%Z
  /\ Z.of_nat (length (added (multi_handle st)))
     = (complete st + pending st + 1)%Z.

(** The counters against the caps: what the admission test keeps. *)
Definition near_caps (st : state) : Prop :=
  (pending st
   <= Z.max 0 (max_requests p + Z.of_N (max_link_per_page p) - 1))%Z
  /\ (complete st + pending st
      <= Z.max 0 (max_total p + Z.of_N (max_link_per_page p)))%Z.

(** Every finished transfer the transport reports is one of an attached
    handle, message by message and round by round as [main_loop] reads
    them. *)
Fixpoint reports_attached (st : state) (ms : list CURLMsg) : Prop :=
  match ms with
  | [] => True
  | m :: rest =>
      (msg m = CURLMSG_DONE -> easy_handle m ∈ handles (multi_handle st))
      /\ reports_attached (on_msg p st m) rest
  end.

Fixpoint rounds_attached (st : state) (rounds : list round) : Prop :=
  match rounds with
  | [] => True
  | r :: rest =>
      if negb (still_running st =? 0)%Z && negb (pending_interrupt r)
      then reports_attached (enter_round st r) (msgs r)
           /\ rounds_attached (read_msgs p (enter_round st r) (msgs r)) rest
      else True
  end.

End Invariants.

(** ** Sample runs *)

Module Runs.

Definition a_html : string := "http://www.example.com/a.html".
Definition b_html : string := "http://www.example.com/b.html".
Definition c_html : string := "http://www.example.com/c.html".
Definition d_html : string := "http://www.example.com/d.html".
Definition e_html : string := "http://www.example.com/e.html".

(** One round in which exactly the transfer of the seed finishes, as a 200
    HTML page with the given body. *)
Definition seed_round (body : string) : round :=
  {| pending_interrupt := false; running := 0;
     msgs := [Sample.done Sample.seed 200 Sample.html body] |}.

(** [-r 2 -t 3] *)
Definition tight : params :=
  {| max_con := 200; max_total := 3; max_requests := 2;
     max_link_per_page := 20; follow_relative_links := 1;
     start_url := Sample.seed |}.

(** [-m 2] *)
Definition two_links : params :=
  {| max_con := 200; max_total := 20000; max_requests := 500;
     max_link_per_page := 2; follow_relative_links := 1;
     start_url := Sample.seed |}.

(** [-t 1] *)
Definition one_total : params :=
  {| max_con := 200; max_total := 1; max_requests := 500;
     max_link_per_page := 20; follow_relative_links := 1;
     start_url := Sample.seed |}.

(** [-t 0] *)
Definition zero_total : params :=
  {| max_con := 200; max_total := 0; max_requests := 500;
     max_link_per_page := 20; follow_relative_links := 1;
     start_url := Sample.seed |}.

(** [-t 2]: the seed page has five links, and [a.html] completes next. *)
Definition over_cap : params :=
  {| max_con := 200; max_total := 2; max_requests := 500;
     max_link_per_page := 20; follow_relative_links := 1;
     start_url := Sample.seed |}.

Definition over_cap_state : state :=
  crawl over_cap [seed_round Sample.page5].

Definition over_cap_msg : CURLMsg :=
  Sample.done a_html 200 Sample.html Sample.page_a.

End Runs.

(** ** Integer conversions *)

Definition SIZE_MAX1 : N := 18446744073709551616.   (* 2^64 *)

(** [size_t] arithmetic wraps. *)
Definition size_mul (a b : N) : N := (a * b) mod SIZE_MAX1.
Definition size_sub (a b : N) : N :=
  (a + SIZE_MAX1 - b mod SIZE_MAX1) mod SIZE_MAX1.

(** [size_t] to [int], and [int] to [size_t]. *)
Definition int_of_size_t (n : N) : Z := int_of_long (Z.of_N n).
Definition size_t_of_int (z : Z) : N := Z.to_N (z mod Z.of_N SIZE_MAX1).

(** ** writer (lines 72-77) *)

(** [data] holds the bytes the pointer leads to; [append(data, n)] takes the
    first [n] of them.  The result is the buffer behind [writerData] and the
    [int] returned. *)
Definition writer (data : string) (size nmemb : N) (writerData : option string)
  : option string * Z :=
  match writerData with
  | None => (None, 0%Z)
  | Some buf =>
      (Some (buf +:+ String.substring 0 (N.to_nat (size_mul size nmemb)) data),
       int_of_size_t (size_mul size nmemb))
  end.

(** libcurl hands a body to the write callback chunk by chunk, [size] being
    1 and [nmemb] the length of the chunk, and gives the transfer up
    (CURLE_WRITE_ERROR, [None] here) when the callback returns another
    number than [nmemb]. *)
Fixpoint deliver (chunks : list string) (writerData : option string)
  : option (option string) :=
  match chunks with
  | [] => Some writerData
  | chunk :: rest =>
      let '(buf, taken) := writer chunk 1 (strlen chunk) writerData in
      if (taken =? Z.of_N (strlen chunk))%Z then deliver rest buf else None
  end.

(** ** The command line (lines 197-251) *)

Definition EXIT_SUCCESS : Z := 0.
Definition EXIT_FAILURE : Z := 1.

(** Lines 197-200; [name2] defaults to the empty string. *)
Definition has_flag (arg name1 name2 : string) : bool :=
  (strncmp arg name1 (String.length name1) =? 0)%Z
  || (negb (strlen name2 =? 0)%N
      && (strncmp arg name2 (String.length name2) =? 0)%Z).

Module Stoi.

Inductive result : Type :=
| value (n : Z)
| invalid_argument
| out_of_range.

Definition isspace (c : ascii) : bool :=
  let n := N_of_ascii c in (n =? 32)%N || ((9 <=? n)%N && (n <=? 13)%N).

Definition isdigit (c : ascii) : bool :=
  let n := N_of_ascii c in (48 <=? n)%N && (n <=? 57)%N.

Fixpoint skip_spaces (s : string) : string :=
  match s with
  | String c r => if isspace c then skip_spaces r else s
  | EmptyString => s
  end.

(** The digits at the start of [s], read in base 10 onto [acc]. *)
Fixpoint digits (s : string) (acc : Z) : Z :=
  match s with
  | String c r =>
      if isdigit c then digits r (10 * acc + (uchar c - 48))%Z else acc
  | EmptyString => acc
  end.

(** [std::stoi(s)]: [strtol] in base 10 (white space, an optional sign,
    digits; what follows is ignored), [invalid_argument] when no digit was
    read, [out_of_range] when the number is no [int]. *)
Definition stoi (s : string) : result :=
  let s := skip_spaces s in
  let '(neg, s) :=
    match s with
    | String "-" r => (true, r)
    | String "+" r => (false, r)
    | _ => (false, s)
    end in
  match s with
  | String c _ =>
      if isdigit c then
        let v := digits s 0 in
        let v := if neg then (- v)%Z else v in
        if (v <? -2147483648)%Z || (2147483647 <? v)%Z
        then out_of_range else value v
      else invalid_argument
  | EmptyString => invalid_argument
  end.

End Stoi.

(** What the argument loop has set so far: the globals of lines 47-57 and
    the locals [verbose] and [graphviz_fname]. *)
Record cli : Type := mk_cli {
  cli_max_con : Z;
  cli_max_total : Z;
  cli_max_requests : Z;
  cli_max_link_per_page : N;
  cli_verbose : Z;
  cli_graphviz_fname : option string;
  cli_start_url : option string
}.

Definition initial_cli : cli :=
  {| cli_max_con := 200; cli_max_total := 20000; cli_max_requests := 500;
     cli_max_link_per_page := 20; cli_verbose := 0;
     cli_graphviz_fname := Some "out.gv"; cli_start_url := None |}.

(** The branch of the [if] chain of lines 215-238 an argument takes, in the
    order of the chain. *)
Inductive flag : Type :=
| flag_h | flag_v | flag_V | flag_c | flag_t | flag_r | flag_m | flag_o
| no_flag.

Definition flag_of (arg : string) : flag :=
  if has_flag arg "-h" "" then flag_h
  else if has_flag arg "-v" "" then flag_v
  else if has_flag arg "-V" "--version" then flag_V
  else if has_flag arg "-c" "--max-con" then flag_c
  else if has_flag arg "-t" "--max-total" then flag_t
  else if has_flag arg "-r" "--max-requests" then flag_r
  else if has_flag arg "-m" "--max-link-per-page" then flag_m
  else if has_flag arg "-o" "--output" then flag_o
  else no_flag.

(** The assignments of lines 224, 226, 228 and 230. *)
Definition set_number (f : flag) (c : cli) (n : Z) : cli :=
  {| cli_max_con := match f with flag_c => n | _ => cli_max_con c end;
     cli_max_total := match f with flag_t => n | _ => cli_max_total c end;
     cli_max_requests :=
       match f with flag_r => n | _ => cli_max_requests c end;
     cli_max_link_per_page :=
       match f with
       | flag_m => size_t_of_int n
       | _ => cli_max_link_per_page c
       end;
     cli_verbose := cli_verbose c;
     cli_graphviz_fname := cli_graphviz_fname c;
     cli_start_url := cli_start_url c |}.

Definition set_verbose (c : cli) (v : Z) : cli :=
  {| cli_max_con := cli_max_con c; cli_max_total := cli_max_total c;
     cli_max_requests := cli_max_requests c;
     cli_max_link_per_page := cli_max_link_per_page c;
     cli_verbose := v; cli_graphviz_fname := cli_graphviz_fname c;
     cli_start_url := cli_start_url c |}.

Definition set_graphviz_fname (c : cli) (f : option string) : cli :=
  {| cli_max_con := cli_max_con c; cli_max_total := cli_max_total c;
     cli_max_requests := cli_max_requests c;
     cli_max_link_per_page := cli_max_link_per_page c;
     cli_verbose := cli_verbose c; cli_graphviz_fname := f;
     cli_start_url := cli_start_url c |}.

Definition set_start_url (c : cli) (u : string) : cli :=
  {| cli_max_con := cli_max_con c; cli_max_total := cli_max_total c;
     cli_max_requests := cli_max_requests c;
     cli_max_link_per_page := cli_max_link_per_page c;
     cli_verbose := cli_verbose c;
     cli_graphviz_fname := cli_graphviz_fname c;
     cli_start_url := Some u |}.

(** How the start of [main] ends: [std::exit], the undefined behaviour of
    [std::stoi] on the null pointer [argv[argc]], or going on. *)
Inductive outcome (A : Type) : Type :=
| Exit (code : Z)
| Undefined
| Go (a : A).

Arguments Exit {A} code.
Arguments Undefined {A}.
Arguments Go {A} a.

(** The [for] loop of lines 214-239 from [argv[i]] on: [args] are
    [argv[i]] to [argv[argc - 1]], so [i == argc - 1] reads "no argument
    follows", and [argv[++i]] past the last one is the null [argv[argc]].
    Both exceptions of [std::stoi] are caught by the handlers of lines
    240-246. *)
Fixpoint parse_loop (args : list string) (c : cli) : outcome cli :=
  match args with
  | [] => Go c
  | arg :: rest =>
      match flag_of arg with
      | flag_h => Exit EXIT_SUCCESS
      | flag_v =>
          parse_loop rest
            (set_verbose c (int_of_size_t (size_sub (strlen arg) 1)))
      | flag_V => Exit EXIT_SUCCESS
      | flag_o =>
          match rest with
          | [] => Go (set_graphviz_fname c None)
          | v :: rest' => parse_loop rest' (set_graphviz_fname c (Some v))
          end
      | no_flag =>
          match rest with
          | [] => Go (set_start_url c arg)
          | _ :: _ => Exit EXIT_FAILURE
          end
      | f =>
          match rest with
          | [] => Undefined
          | v :: rest' =>
              match Stoi.stoi v with
              | Stoi.value n => parse_loop rest' (set_number f c n)
              | _ => Exit EXIT_FAILURE
              end
          end
      end
  end.

Definition params_of (c : cli) (u : string) : params :=
  {| max_con := cli_max_con c; max_total := cli_max_total c;
     max_requests := cli_max_requests c;
     max_link_per_page := cli_max_link_per_page c;
     follow_relative_links := 1; start_url := u |}.

(** Lines 203-251: the parameters of the crawl, [verbose] and
    [graphviz_fname]. *)
Definition parse_args (argv : list string)
  : outcome (params * Z * option string) :=
  if (length argv <? 2)%nat then Exit EXIT_FAILURE
  else
    match parse_loop (tail argv) initial_cli with
    | Exit code => Exit code
    | Undefined => Undefined
    | Go c =>
        match cli_start_url c with
        | None => Exit EXIT_FAILURE
        | Some u => Go (params_of c u, cli_verbose c, cli_graphviz_fname c)
        end
    end.

(** ** The end of main (lines 324-354) *)

Inductive summary : Type :=
| links_are_broken (n_broken complete : Z)
| no_broken_links (num_nodes : Z).

(** Lines 325-333; [n_broken] and [num_nodes] are turned into [int]. *)
Definition summarize (st : state) : summary :=
  let n_broken := int_of_size_t (N.of_nat (length (broken_links st))) in
  if (n_broken =? 0)%Z
  then no_broken_links
         (int_of_size_t (N.of_nat (NGraph.num_nodes (network st))))
  else links_are_broken n_broken (complete st).

(** Lines 340-354: the exit status, [fopen_ok] telling whether the output
    file could be opened. *)
Definition exit_status (st : state) (fopen_ok : bool) : Z :=
  if fopen_ok then
    if (N.of_nat (length (broken_links st)) =? 0)%N
    then EXIT_SUCCESS else EXIT_FAILURE
  else EXIT_FAILURE.

(** ** What a run has read *)

Section Consumed.

Context `{libxml2}.
Variable p : params.

(** The messages [main_loop] reads, in order: those of the rounds it
    enters. *)
Fixpoint consumed (rounds : list round) (st : state) : list CURLMsg :=
  match rounds with
  | [] => []
  | r :: rest =>
      if negb (still_running st =? 0)%Z && negb (pending_interrupt r)
      then msgs r ++ consumed rest (read_msgs p (enter_round st r) (msgs r))
      else []
  end.

(** A finished transfer that answered with another status than 200. *)
Definition http_error (m : CURLMsg) : bool :=
  match msg m with
  | CURLMSG_DONE =>
      (result m =? CURLE_OK)%Z && negb (response_code m =? 200)%Z
  | CURLMSG_NONE => false
  end.

Definition is_done (m : CURLMsg) : bool :=
  match msg m with CURLMSG_DONE => true | CURLMSG_NONE => false end.

(** A link [follow_links] may record: the saved form of a URI without
    fragment, of 20 characters or more, under [http://] or [https://]. *)
Definition eligible (l : string) : Prop :=
  (20 <= strlen l)%N /\ is_http l = true
  /\ exists uri, fragment uri = None /\ xmlSaveUri uri = Some l.

End Consumed.

(** ** More invariants of the run loop *)

Section RunInvariants.

Context `{libxml2}.
Variable p : params.

(** Apart from the seed, which [main] attaches itself, the handles ever
    attached are pairwise different eligible links, and nodes of the
    graph. *)
Definition scheduled_once (st : state) : Prop :=
  exists new : list string,
    added (multi_handle st) = start_url p :: new
    /\ NoDup new
    /\ (forall l, l ∈ new -> l ∈ dom (network st) /\ eligible l).

(** Every edge leaves a page under the seed and leads to an eligible link,
    and every node is one or the other. *)
Definition within_seed (g : tGraph) : Prop :=
  (forall v l, l ∈ out_neighbors g v ->
     String.prefix (start_url p) v = true /\ eligible l)
  /\ (forall v, v ∈ dom g ->
        String.prefix (start_url p) v = true \/ eligible v).

(** [st'] has everything [st] has. *)
Definition grows (st st' : state) : Prop :=
  dom (network st) ⊆ dom (network st')
  /\ (forall v, out_neighbors (network st) v
                ⊆ out_neighbors (network st') v)
  /\ broken_links st `prefix_of` broken_links st'
  /\ added (multi_handle st) `prefix_of` added (multi_handle st')
  /\ (complete st <= complete st')%Z.

End RunInvariants.

(** The numbers the loop holds are [int]s, and the cap a [size_t]. *)
Definition cli_ok (c : cli) : Prop :=
  (-2147483648 <= cli_max_con c <= 2147483647)%Z
  /\ (-2147483648 <= cli_max_total c <= 2147483647)%Z
  /\ (-2147483648 <= cli_max_requests c <= 2147483647)%Z
  /\ (cli_max_link_per_page c < SIZE_MAX1)%N
  /\ (-2147483648 <= cli_verbose c <= 2147483647)%Z.

Definition takes_number (f : flag) : Prop :=
  f = flag_c \/ f = flag_t \/ f = flag_r \/ f = flag_m.

(** Nothing but the seed was ever attached, and nothing recorded. *)
Definition seed_only (p : params) (st : state) : Prop :=
  counted st
  /\ (0 <= complete st)%Z
  /\ added (multi_handle st) = [start_url p]
  /\ network st = ∅.

(** * Properties *)

(** ** libc strings *)

Section CStringFacts.

Lemma uchar_inj c1 c2 : uchar c1 = uchar c2 -> c1 = c2.
Proof.
  unfold uchar. intros E. apply N2Z.inj in E.
  rewrite <- (ascii_N_embedding c1), <- (ascii_N_embedding c2). now rewrite E.
Qed.

Lemma uchar_zero c : uchar c = 0%Z -> c = Ascii.zero.
Proof. intros E. apply uchar_inj. rewrite E. reflexivity. Qed.

Lemma prefix_cons c1 r1 c2 r2 :
  String.prefix (String c1 r1) (String c2 r2)
  = Ascii.eqb c1 c2 && String.prefix r1 r2.
Proof.
  simpl. destruct (ascii_dec c1 c2) as [->|Hne].
  - now rewrite Ascii.eqb_refl.
  - apply Ascii.eqb_neq in Hne. now rewrite Hne.
Qed.

(** [strncmp s t (strlen t)] is 0 exactly when [t], a C string, starts [s]. *)
Lemma strncmp_prefix (t s : string) :
  no_nul t = true ->
  (strncmp s t (String.length t) =? 0)%Z = String.prefix t s.
Proof.
  revert s. induction t as [|c t IH]; intros s Hn.
  - now destruct s.
  - simpl in Hn. apply andb_prop in Hn as [Hc Ht].
    apply negb_true_iff, Ascii.eqb_neq in Hc.
    destruct s as [|a s].
    + cbn [String.length strncmp String.prefix].
      apply Z.eqb_neq. intros E. apply Hc, uchar_zero. lia.
    + rewrite prefix_cons. cbn [String.length strncmp].
      rewrite (Ascii.eqb_sym c a).
      destruct (Ascii.eqb a c) eqn:E; [now apply IH|].
      apply Z.eqb_neq. intros E'. apply Ascii.eqb_neq in E.
      apply E, uchar_inj. lia.
Qed.

Lemma is_http_prefix (link : string) :
  is_http link
  = String.prefix "http://" link || String.prefix "https://" link.
Proof.
  unfold is_http.
  now rewrite <- (strncmp_prefix "http://"), <- (strncmp_prefix "https://").
Qed.

End CStringFacts.

(** ** follow_links: the same-prefix guard *)

(** C6: a page whose URL does not begin with the seed URL's text gives
    nothing: [follow_links] returns 0, records no edge and attaches no
    handle. *)
Theorem follow_links_off_prefix `{libxml2} (p : params) (url : string)
    (net : tGraph) (mh : CURLM) (mem : string) :
  no_nul (start_url p) = true ->
  String.prefix (start_url p) url = false ->
  follow_links p url net mh mem = (net, mh, 0%N).
Proof.
  intros Hn Hp. unfold follow_links.
  rewrite (strncmp_prefix _ _ Hn), Hp. reflexivity.
Qed.

Lemma follow_links_off_prefix_witness :
  no_nul (start_url (default_params "https://www.example.com/foo")) = true /\
  String.prefix (start_url (default_params "https://www.example.com/foo"))
    "https://www.example.com/bar" = false /\
  follow_links (default_params "https://www.example.com/foo")
    "https://www.example.com/bar" ∅ curl_multi_init Sample.page5
  = (∅, curl_multi_init, 0%N).
Proof.
  split; [reflexivity|]. split; [reflexivity|].
  apply (follow_links_off_prefix
           (default_params "https://www.example.com/foo")); reflexivity.
Defined.

(** ** The completion branch *)

Section Completion.

Context `{libxml2}.
Variable p : params.

Lemma broken_links_retire st m : broken_links (retire st m) = broken_links st.
Proof. reflexivity. Qed.

Lemma network_retire st m : network (retire st m) = network st.
Proof. reflexivity. Qed.

Lemma added_retire st m :
  added (multi_handle (retire st m)) = added (multi_handle st).
Proof. reflexivity. Qed.

Lemma classify_counts_complete st m : complete (classify p st m) = complete st.
Proof.
  unfold classify.
  repeat match goal with
         | |- context [if ?b then _ else _] => destruct b
         | |- context [let '(_, _) := ?x in _] => destruct x as [[? ?] ?]
         end; reflexivity.
Qed.

Lemma classify_broken_links st m :
  broken_links (classify p st m)
  = if (result m =? CURLE_OK)%Z && negb (response_code m =? 200)%Z
    then broken_links st ++ [(int_of_long (response_code m), effective_url m)]
    else broken_links st.
Proof.
  unfold classify.
  destruct (result m =? CURLE_OK)%Z; [|reflexivity].
  destruct (response_code m =? 200)%Z; [|reflexivity]. cbn [andb negb].
  repeat match goal with
         | |- context [if ?b then _ else _] => destruct b
         | |- context [let '(_, _) := ?x in _] => destruct x as [[? ?] ?]
         end; reflexivity.
Qed.

(** When the transfer is no HTML page with a 200, or admission fails,
    [classify] changes nothing. *)
Lemma classify_no_discovery st m :
  (result m =? CURLE_OK)%Z = true ->
  (response_code m =? 200)%Z = true ->
  is_html (content_type m)
    && (100 <? N.of_nat (String.length (private_mem m)))%N
    && admission p st = false ->
  classify p st m = st.
Proof.
  intros Hr Hs Hg. unfold classify. rewrite Hr, Hs.
  destruct (is_html _ && _); [|reflexivity].
  cbn [andb] in Hg. now rewrite Hg.
Qed.

End Completion.

Lemma int_of_long_small (z : Z) :
  (-2147483648 <= z < 2147483648)%Z -> int_of_long z = z.
Proof. intros Hz. unfold int_of_long. rewrite Z.mod_small; lia. Qed.

(** C8: a terminal message appends [(status, effective url)] to
    [broken_links] exactly when the transfer succeeded in the transport with
    a status other than 200 (the status as [int], the status itself when it
    fits); every terminal message counts as complete, and one that failed in
    the transport leaves [broken_links] as it was. *)
Theorem broken_link_iff_http_error `{libxml2} (p : params) (st : state)
    (m : CURLMsg) :
  msg m = CURLMSG_DONE ->
  broken_links (on_msg p st m)
  = (if (result m =? CURLE_OK)%Z && negb (response_code m =? 200)%Z
     then broken_links st ++ [(int_of_long (response_code m), effective_url m)]
     else broken_links st)
  /\ ((-2147483648 <= response_code m < 2147483648)%Z ->
      int_of_long (response_code m) = response_code m)
  /\ complete (on_msg p st m) = (complete st + 1)%Z
  /\ (result m <> CURLE_OK ->
      broken_links (on_msg p st m) = broken_links st).
Proof.
  intros Hm. unfold on_msg. rewrite Hm.
  rewrite broken_links_retire, classify_broken_links.
  repeat split.
  - apply int_of_long_small.
  - cbn [retire complete]. now rewrite classify_counts_complete.
  - intros Hr. apply Z.eqb_neq in Hr. now rewrite Hr.
Qed.

Lemma broken_link_iff_http_error_witness :
  let st := initial (default_params Sample.seed) in
  broken_links (on_msg (default_params Sample.seed) st
                  (Sample.done Sample.seed 404 Sample.html Sample.page5))
  = [(404%Z, Sample.seed)]
  /\ broken_links (on_msg (default_params Sample.seed) st
                     (Sample.failed Sample.seed)) = []
  /\ complete (on_msg (default_params Sample.seed) st
                 (Sample.failed Sample.seed)) = 1%Z.
Proof.
  pose proof (broken_link_iff_http_error (default_params Sample.seed)
                (initial (default_params Sample.seed))
                (Sample.done Sample.seed 404 Sample.html Sample.page5)
                eq_refl) as (E & _).
  pose proof (broken_link_iff_http_error (default_params Sample.seed)
                (initial (default_params Sample.seed))
                (Sample.failed Sample.seed) eq_refl) as (_ & _ & C & B).
  cbv zeta. split; [exact E|]. split; [apply B; discriminate | exact C].
Defined.

(** ** is_html *)

Lemma is_html_spec (ctype : option string) :
  is_html ctype = true <->
  exists c, ctype = Some c /\ (10 < strlen c)%N
            /\ is_Some (strstr c "text/html").
Proof.
  unfold is_html. split.
  - destruct ctype as [c|]; [|discriminate]. intros E.
    apply andb_prop in E as [E1 E2]. exists c. repeat split.
    + now apply N.ltb_lt.
    + destruct (strstr c "text/html"); [eauto | discriminate].
  - intros (c & -> & Hlen & [s Hs]).
    apply N.ltb_lt in Hlen. now rewrite Hlen, Hs.
Qed.

(** C10: a 200 response is treated as HTML only when its Content-Type is
    longer than 10 characters and contains "text/html"; when [is_html] says
    no, the message is only retired, and the 9 characters "text/html" alone
    are such a case. *)
Theorem html_needs_long_content_type `{libxml2} (p : params) (st : state)
    (m : CURLMsg) :
  msg m = CURLMSG_DONE ->
  result m = CURLE_OK ->
  response_code m = 200%Z ->
  (is_html (content_type m) = true <->
   exists c, content_type m = Some c /\ (10 < strlen c)%N
             /\ is_Some (strstr c "text/html"))
  /\ (is_html (content_type m) = false -> on_msg p st m = retire st m)
  /\ (content_type m = Some "text/html" -> on_msg p st m = retire st m).
Proof.
  intros Hm Hr Hs. split; [apply is_html_spec|].
  assert (Hno : is_html (content_type m) = false ->
                on_msg p st m = retire st m).
  { intros Hh. unfold on_msg. rewrite Hm. f_equal.
    apply classify_no_discovery.
    - now rewrite Hr.
    - now rewrite Hs.
    - now rewrite Hh. }
  split; [exact Hno|]. intros Hc. apply Hno. now rewrite Hc.
Qed.

Lemma html_needs_long_content_type_witness :
  let p := default_params Sample.seed in
  let m := Sample.done Sample.seed 200 "text/html" Sample.page5 in
  is_html (content_type m) = false /\
  on_msg p (initial p) m = retire (initial p) m.
Proof.
  cbv zeta. split; [reflexivity|].
  apply (html_needs_long_content_type (default_params Sample.seed)
           (initial (default_params Sample.seed))
           (Sample.done Sample.seed 200 "text/html" Sample.page5)
           eq_refl eq_refl eq_refl).
  reflexivity.
Defined.

(** ** Admission *)

(** C5, as the code has it: a 200 HTML page that completes while the
    admission test of line 298 fails is not parsed at all; the message is
    only retired, so the graph and the log of attached handles stay as they
    were and the counters move by one. *)
Theorem over_cap_page_is_not_parsed `{libxml2} (p : params) (st : state)
    (m : CURLMsg) :
  msg m = CURLMSG_DONE ->
  result m = CURLE_OK ->
  response_code m = 200%Z ->
  admission p st = false ->
  on_msg p st m = retire st m
  /\ network (on_msg p st m) = network st
  /\ added (multi_handle (on_msg p st m)) = added (multi_handle st)
  /\ pending (on_msg p st m) = (pending st - 1)%Z
  /\ complete (on_msg p st m) = (complete st + 1)%Z.
Proof.
  intros Hm Hr Hs Ha.
  assert (E : on_msg p st m = retire st m).
  { unfold on_msg. rewrite Hm. f_equal. apply classify_no_discovery.
    - now rewrite Hr.
    - now rewrite Hs.
    - rewrite Ha. apply andb_false_r. }
  rewrite E. repeat split.
Qed.

Lemma over_cap_page_is_not_parsed_witness :
  admission Runs.over_cap Runs.over_cap_state = false /\
  network (on_msg Runs.over_cap Runs.over_cap_state Runs.over_cap_msg)
  = network Runs.over_cap_state.
Proof.
  split; [vm_compute; reflexivity|].
  apply (over_cap_page_is_not_parsed Runs.over_cap Runs.over_cap_state
           Runs.over_cap_msg eq_refl eq_refl eq_refl).
  vm_compute; reflexivity.
Defined.

(** C5, as stated, fails: [a.html] is a 200 HTML page of more than 100
    bytes with a link to [f.html], which [follow_links] would record; it
    completes while admission fails, and afterwards the graph has neither the
    edge nor the node. *)
Lemma over_cap_page_edges_not_recorded :
  let st := Runs.over_cap_state in
  let m := Runs.over_cap_msg in
  let st' := on_msg Runs.over_cap st m in
  is_html (content_type m) = true
  /\ (100 <? N.of_nat (String.length (private_mem m)))%N = true
  /\ admission Runs.over_cap st = false
  /\ out_neighbors
       (follow_links Runs.over_cap (effective_url m) (network st)
          (multi_handle st) (private_mem m)).1.1
       "http://www.example.com/a.html"
     = {[ "http://www.example.com/f.html" ]}
  /\ out_neighbors (network st') "http://www.example.com/a.html" = ∅
  /\ NGraph.find (network st') "http://www.example.com/f.html" = None.
Proof. cbv zeta. repeat split; vm_compute; reflexivity. Qed.

(** ** follow_links: canonical links and the filters *)

Section Candidates.

Context `{libxml2}.
Variable p : params.
Variable url : string.

Lemma next_link_fragment uri href :
  fragment (next_link p url uri href).1 = None.
Proof. reflexivity. Qed.

Lemma next_link_saved uri href :
  (next_link p url uri href).2 = xmlSaveUri (next_link p url uri href).1.
Proof. reflexivity. Qed.

(** A candidate that is null, shorter than 20 characters or not under
    [http://] or [https://] leaves the loop's state alone. *)
Lemma follow_links_loop_discard href rest uri count net mh :
  match (next_link p url uri href).2 with
  | None => True
  | Some l => (strlen l < 20)%N \/ is_http l = false
  end ->
  follow_links_loop p url (href :: rest) uri count net mh
  = follow_links_loop p url rest (next_link p url uri href).1 count net mh.
Proof.
  cbn [follow_links_loop].
  destruct (next_link p url uri href) as [uri' [l|]]; cbn [fst snd];
    [|reflexivity].
  intros [Hlen|Hhttp].
  - apply N.ltb_lt in Hlen. now rewrite Hlen.
  - rewrite Hhttp. now destruct (strlen l <? 20)%N.
Qed.

(** The loop reads an href only through [next_link]. *)
Lemma follow_links_loop_same_link h1 h2 rest uri count net mh :
  next_link p url uri h1 = next_link p url uri h2 ->
  follow_links_loop p url (h1 :: rest) uri count net mh
  = follow_links_loop p url (h2 :: rest) uri count net mh.
Proof. intros E. cbn [follow_links_loop]. now rewrite E. Qed.

End Candidates.

(** ** Runs that leave the caps behind *)

(** C1, on the code: with [max_requests = 2] and [max_total = 3], once the
    seed page with five links has completed, five transfers are attached at
    once ([pending] is 4) and six handles were attached in all: both caps are
    exceeded. *)
Theorem caps_exceeded_after_seed :
  let st := crawl Runs.tight [Runs.seed_round Sample.page5] in
  handles (multi_handle st)
  = [Runs.a_html; Runs.b_html; Runs.c_html; Runs.d_html; Runs.e_html]
  /\ added (multi_handle st)
     = [Sample.seed; Runs.a_html; Runs.b_html; Runs.c_html; Runs.d_html;
        Runs.e_html]
  /\ pending st = 4%Z
  /\ complete st = 1%Z
  /\ (max_requests Runs.tight < pending st)%Z
  /\ (max_requests Runs.tight < Z.of_nat (length (handles (multi_handle st))))%Z
  /\ (max_total Runs.tight < Z.of_nat (length (added (multi_handle st))))%Z.
Proof. cbv zeta. repeat split; vm_compute; reflexivity. Qed.

(** C2, on the code: with [max_link_per_page = 2], [follow_links] on a page
    with five new eligible links attaches three handles and returns 3. *)
Theorem link_cap_follows_one_more :
  let r := follow_links Runs.two_links Sample.seed ∅ curl_multi_init
             Sample.page5 in
  added r.1.2 = [Runs.a_html; Runs.b_html; Runs.c_html]
  /\ handles r.1.2 = [Runs.a_html; Runs.b_html; Runs.c_html]
  /\ r.2 = 3%N
  /\ added (multi_handle (crawl Runs.two_links [Runs.seed_round Sample.page5]))
     = [Sample.seed; Runs.a_html; Runs.b_html; Runs.c_html].
Proof. cbv zeta. repeat split; vm_compute; reflexivity. Qed.

(** C3, on the code: the seed is attached before it is a node of the graph,
    so a seed page whose first link is the seed itself attaches the seed a
    second time, next to recording the self-loop. *)
Theorem seed_self_link_scheduled_twice :
  let p := default_params Sample.seed in
  let st := crawl p [Runs.seed_round Sample.page_self] in
  NGraph.find (network (initial p)) Sample.seed = None
  /\ added (multi_handle st) = [Sample.seed; Sample.seed; Runs.a_html]
  /\ handles (multi_handle st) = [Sample.seed; Runs.a_html]
  /\ out_neighbors (network st) Sample.seed = {[ Sample.seed; Runs.a_html ]}.
Proof. cbv zeta. repeat split; vm_compute; reflexivity. Qed.

(** C4, on the code: with [max_total = 1] the admission test reads
    [0 + 0 < 1] when the seed completes, and the five links of the seed page
    are attached. *)
Theorem max_total_one_still_schedules :
  let st0 := initial Runs.one_total in
  let st := crawl Runs.one_total [Runs.seed_round Sample.page5] in
  admission Runs.one_total st0 = true
  /\ complete st = 1%Z
  /\ handles (multi_handle st)
     = [Runs.a_html; Runs.b_html; Runs.c_html; Runs.d_html; Runs.e_html]
  /\ added (multi_handle st)
     = [Sample.seed; Runs.a_html; Runs.b_html; Runs.c_html; Runs.d_html;
        Runs.e_html].
Proof. cbv zeta. repeat split; vm_compute; reflexivity. Qed.

(** C9, on the code: [pending] starts at 0 with the seed attached, so it is
    one less than the number of attached handles, and -1 once the seed has
    completed with nothing to follow. *)
Theorem pending_is_one_behind :
  let p := default_params Sample.seed in
  let st := crawl p [ {| pending_interrupt := false; running := 0;
                         msgs := [Sample.failed Sample.seed] |} ] in
  pending (initial p) = 0%Z
  /\ handles (multi_handle (initial p)) = [Sample.seed]
  /\ pending st = (-1)%Z
  /\ complete st = 1%Z
  /\ handles (multi_handle st) = [].
Proof. cbv zeta. repeat split; vm_compute; reflexivity. Qed.

(** ** The graph *)

Section GraphFacts.

Implicit Types (g : gmap string (gset string)) (a b v : string).

Lemma dom_insert_vertex g v : dom (insert_vertex g v) = {[ v ]} ∪ dom g.
Proof.
  unfold insert_vertex. destruct (g !! v) as [s|] eqn:E.
  - assert (v ∈ dom g) by (apply elem_of_dom; eauto). set_solver.
  - apply dom_insert_L.
Qed.

Lemma dom_insert_edge g a b : dom (insert_edge g a b) = {[ a; b ]} ∪ dom g.
Proof.
  unfold insert_edge. rewrite dom_insert_L, !dom_insert_vertex. set_solver.
Qed.

Lemma find_dom g v : NGraph.find g v = None <-> v ∉ dom g.
Proof. unfold NGraph.find. symmetry. apply not_elem_of_dom. Qed.

Lemma insert_edge_out g a b : b ∈ out_neighbors (insert_edge g a b) a.
Proof.
  unfold out_neighbors, insert_edge. rewrite lookup_insert_eq. cbn.
  set_solver.
Qed.

End GraphFacts.

(** ** follow_links: what the loop attaches *)

Section LoopFacts.

Context `{libxml2}.
Variable p : params.
Variable url : string.

(** The handles the loop attaches: they extend the multi handle at its end,
    the count returned tells how many there are and stops one past the cap,
    each was no node of the graph on entry and is one on exit, and no two
    are the same. *)
Lemma follow_links_loop_attached nodes :
  forall uri count net mh net' mh' n,
  (count <= max_link_per_page p)%N ->
  follow_links_loop p url nodes uri count net mh = (net', mh', n) ->
  exists new : list string,
    added mh' = added mh ++ new
    /\ handles mh' = handles mh ++ new
    /\ n = (count + N.of_nat (length new))%N
    /\ (n <= max_link_per_page p + 1)%N
    /\ dom net ⊆ dom net'
    /\ (forall l, l ∈ new -> (l ∉ dom net) /\ (l ∈ dom net'))
    /\ NoDup new.
Proof.
  induction nodes as [|href rest IH]; intros uri count net mh net' mh' n Hc.
  - cbn [follow_links_loop]. intros [= <- <- <-]. exists [].
    rewrite !app_nil_r. cbn [length].
    split_and!; try lia; try done.
    + intros l Hl. inversion Hl.
    + constructor.
  - cbn [follow_links_loop].
    destruct (next_link p url uri href) as [uri' [link|]]; [|now apply IH].
    destruct (strlen link <? 20)%N; [now apply IH|].
    destruct (is_http link); [|now apply IH].
    destruct (NGraph.find net link) as [s|] eqn:Hf.
    + intros E.
      destruct (IH _ _ _ _ _ _ _ Hc E)
        as (new & Ha & Hh & Hn & Hb & Hd & Hfresh & Hnd).
      rewrite dom_insert_edge in Hd.
      exists new. split_and!; try assumption.
      * set_solver.
      * intros l Hl. apply Hfresh in Hl as [Hx Hy].
        rewrite dom_insert_edge in Hx. set_solver.
    + apply find_dom in Hf.
      destruct (count =? max_link_per_page p)%N eqn:Hcap.
      * intros [= <- <- <-]. exists [link]. cbn [length].
        rewrite dom_insert_edge.
        split_and!; try lia; try done.
        -- set_solver.
        -- intros l Hl. apply list_elem_of_singleton in Hl. subst.
           set_solver.
        -- apply NoDup_singleton.
      * apply N.eqb_neq in Hcap. intros E.
        assert (Hc' : (N.succ count <= max_link_per_page p)%N) by lia.
        destruct (IH _ _ _ _ _ _ _ Hc' E)
          as (new & Ha & Hh & Hn & Hb & Hd & Hfresh & Hnd).
        rewrite dom_insert_edge in Hd.
        exists (link :: new).
        rewrite Ha, Hh. unfold make_handle.
        cbn [curl_multi_add_handle added handles length].
        rewrite <- !app_assoc.
        split_and!; try lia; try done.
        -- set_solver.
        -- intros l Hl. apply elem_of_cons in Hl as [->|Hl]; [set_solver|].
           apply Hfresh in Hl as [Hx Hy]. rewrite dom_insert_edge in Hx.
           set_solver.
        -- apply NoDup_cons. split; [|assumption].
           intros Hl. apply Hfresh in Hl as [Hx _].
           rewrite dom_insert_edge in Hx. set_solver.
Qed.

Lemma follow_links_attached net mh mem net' mh' n :
  follow_links p url net mh mem = (net', mh', n) ->
  exists new : list string,
    added mh' = added mh ++ new
    /\ handles mh' = handles mh ++ new
    /\ n = N.of_nat (length new)
    /\ (n <= max_link_per_page p + 1)%N
    /\ dom net ⊆ dom net'
    /\ (forall l, l ∈ new -> (l ∉ dom net) /\ (l ∈ dom net'))
    /\ NoDup new.
Proof.
  assert (Hnil : (net, mh, 0%N) = (net', mh', n) ->
                 exists new : list string,
                   added mh' = added mh ++ new
                   /\ handles mh' = handles mh ++ new
                   /\ n = N.of_nat (length new)
                   /\ (n <= max_link_per_page p + 1)%N
                   /\ dom net ⊆ dom net'
                   /\ (forall l, l ∈ new -> (l ∉ dom net) /\ (l ∈ dom net'))
                   /\ NoDup new).
  { intros [= <- <- <-]. exists []. rewrite !app_nil_r. cbn [length].
    split_and!; try lia; try done.
    - intros l Hl. inversion Hl.
    - constructor. }
  unfold follow_links.
  destruct (negb _); [exact Hnil|].
  destruct (href_nodes mem url) as [[|href rest]|]; try exact Hnil.
  intros E. apply follow_links_loop_attached in E; [|lia].
  destruct E as (new & Ha & Hh & Hn & Hrest). exists new.
  split_and!; try tauto; lia.
Qed.

End LoopFacts.

(** ** The counters along a run *)

Section Counters.

Context `{libxml2}.
Variable p : params.

Lemma length_remove_first h (l : list CURL) :
  h ∈ l -> S (length (remove_first h l)) = length l.
Proof.
  induction l as [|x l IH]; intros Hin; [inversion Hin|].
  cbn [remove_first]. destruct (String.eqb x h) eqn:E; [reflexivity|].
  apply String.eqb_neq in E. apply elem_of_cons in Hin as [->|Hin]; [done|].
  cbn [length]. now rewrite IH.
Qed.

(** What [classify] does to the multi handle and the counters. *)
Lemma classify_attached st m :
  exists new : list string,
    added (multi_handle (classify p st m)) = added (multi_handle st) ++ new
    /\ handles (multi_handle (classify p st m))
       = handles (multi_handle st) ++ new
    /\ pending (classify p st m) = (pending st + Z.of_nat (length new))%Z
    /\ complete (classify p st m) = complete st
    /\ (N.of_nat (length new) <= max_link_per_page p + 1)%N
    /\ (admission p st = false -> new = []).
Proof.
  assert (Hst : forall st' : state,
            multi_handle st' = multi_handle st -> pending st' = pending st ->
            complete st' = complete st ->
            exists new : list string,
              added (multi_handle st') = added (multi_handle st) ++ new
              /\ handles (multi_handle st') = handles (multi_handle st) ++ new
              /\ pending st' = (pending st + Z.of_nat (length new))%Z
              /\ complete st' = complete st
              /\ (N.of_nat (length new) <= max_link_per_page p + 1)%N
              /\ (admission p st = false -> new = [])).
  { intros st' -> -> ->. exists []. rewrite !app_nil_r. cbn [length].
    split_and!; try lia; done. }
  unfold classify.
  destruct (result m =? CURLE_OK)%Z; [|now apply Hst].
  destruct (response_code m =? 200)%Z; [|now apply Hst].
  destruct (is_html _ && _); [|now apply Hst].
  destruct (admission p st) eqn:Ha; [|now apply Hst].
  destruct (follow_links _ _ _ _ _) as [[net mh] n] eqn:E.
  apply follow_links_attached in E
    as (new & Hadd & Hh & Hn & Hb & _). exists new.
  cbn [multi_handle pending complete]. split_and!; try done; lia.
Qed.

Lemma counted_initial : counted (initial p).
Proof. split; reflexivity. Qed.

Lemma near_caps_initial : near_caps p (initial p).
Proof. split; cbn; lia. Qed.

Lemma counted_on_msg st m :
  (msg m = CURLMSG_DONE -> easy_handle m ∈ handles (multi_handle st)) ->
  counted st -> counted (on_msg p st m).
Proof.
  intros Hin [Hp Ha]. unfold on_msg.
  destruct (msg m); [now split|]. specialize (Hin eq_refl).
  destruct (classify_attached st m) as (new & Hadd & Hh & Hpe & Hco & _).
  assert (Hin' : easy_handle m ∈ handles (multi_handle (classify p st m))).
  { rewrite Hh. apply elem_of_app. now left. }
  apply length_remove_first in Hin'.
  unfold counted.
  cbn [retire multi_handle curl_multi_remove_handle handles added pending
       complete].
  rewrite Hh in Hin' |- *. rewrite Hadd, Hpe, Hco.
  unfold CURL in *. rewrite length_app in *. lia.
Qed.

Lemma near_caps_on_msg st m : near_caps p st -> near_caps p (on_msg p st m).
Proof.
  intros [Hp Ht]. unfold on_msg. destruct (msg m); [now split|].
  destruct (classify_attached st m) as (new & _ & _ & Hpe & Hco & Hb & Hno).
  unfold near_caps. cbn [retire pending complete]. rewrite Hpe, Hco.
  destruct (admission p st) eqn:Ha.
  - unfold admission in Ha. apply andb_prop in Ha as [H1 H2].
    apply Z.ltb_lt in H1, H2. lia.
  - rewrite (Hno eq_refl). cbn [length]. lia.
Qed.

Lemma counted_read_msgs ms : forall st,
  reports_attached p st ms -> counted st -> counted (read_msgs p st ms).
Proof.
  induction ms as [|m ms IH]; intros st Hr Hc; [exact Hc|].
  destruct Hr as [Hm Hr]. cbn [read_msgs fold_left].
  apply IH; [exact Hr|]. now apply counted_on_msg.
Qed.

Lemma near_caps_read_msgs ms : forall st,
  near_caps p st -> near_caps p (read_msgs p st ms).
Proof.
  induction ms as [|m ms IH]; intros st Hc; [exact Hc|].
  cbn [read_msgs fold_left]. apply IH. now apply near_caps_on_msg.
Qed.

Lemma counted_main_loop rounds : forall st,
  rounds_attached p st rounds -> counted st -> counted (main_loop p rounds st).
Proof.
  induction rounds as [|r rounds IH]; intros st Hr Hc; [exact Hc|].
  cbn [main_loop rounds_attached] in *.
  destruct (negb _ && negb _); [|exact Hc].
  destruct Hr as [Hm Hr]. apply IH; [exact Hr|]. now apply counted_read_msgs.
Qed.

Lemma near_caps_main_loop rounds : forall st,
  near_caps p st -> near_caps p (main_loop p rounds st).
Proof.
  induction rounds as [|r rounds IH]; intros st Hc; [exact Hc|].
  cbn [main_loop]. destruct (negb _ && negb _); [|exact Hc].
  apply IH. now apply near_caps_read_msgs.
Qed.

End Counters.

(** X1: one call of [follow_links] attaches at most
    [max_link_per_page + 1] handles, at the end of the multi handle, and
    returns their number. *)
Theorem follow_links_count_bound `{libxml2} (p : params) (url : string)
    (net : tGraph) (mh : CURLM) (mem : string) :
  let r := follow_links p url net mh mem in
  exists new : list string,
    added (r.1.2) = added mh ++ new
    /\ handles (r.1.2) = handles mh ++ new
    /\ r.2 = N.of_nat (length new)
    /\ (r.2 <= max_link_per_page p + 1)%N.
Proof.
  cbv zeta. destruct (follow_links p url net mh mem) as [[net' mh'] n] eqn:E.
  apply follow_links_attached in E as (new & Ha & Hh & Hn & Hb & _).
  exists new. cbn [fst snd]. now split_and!.
Qed.

(** X2: a link that is already a node of the graph only gets its edge:
    the loop goes on with the same multi handle and the same count. *)
Theorem known_link_adds_edge_only `{libxml2} (p : params) (url : string)
    (uri : xmlURI) (href : option string) (rest : list (option string))
    (count : N) (net : tGraph) (mh : CURLM) (link : string) :
  (next_link p url uri href).2 = Some link ->
  is_Some (NGraph.find net link) ->
  exists net1 : tGraph,
    (net1 = net \/ net1 = insert_edge net url link)
    /\ follow_links_loop p url (href :: rest) uri count net mh
       = follow_links_loop p url rest (next_link p url uri href).1 count
           net1 mh.
Proof.
  intros Hl [s Hs]. cbn [follow_links_loop].
  destruct (next_link p url uri href) as [uri' l]. cbn [fst snd] in *.
  subst l. destruct (strlen link <? 20)%N; [exists net; now split; [left|]|].
  destruct (is_http link); [|exists net; now split; [left|]].
  rewrite Hs. exists (insert_edge net url link). now split; [right|].
Qed.

Lemma known_link_adds_edge_only_witness :
  let p := default_params Sample.seed in
  let net := insert_edge ∅ Sample.seed Runs.a_html in
  follow_links_loop p Sample.seed [Some Runs.a_html] Sample.empty_uri 0%N net
    curl_multi_init
  = (net, curl_multi_init, 0%N).
Proof.
  cbv zeta.
  destruct (known_link_adds_edge_only (default_params Sample.seed)
              Sample.seed Sample.empty_uri (Some Runs.a_html) [] 0%N
              (insert_edge ∅ Sample.seed Runs.a_html) curl_multi_init
              Runs.a_html)
    as (net1 & Hnet & E).
  - reflexivity.
  - vm_compute. eauto.
  - rewrite E. cbn [follow_links_loop].
    destruct Hnet as [->| ->]; vm_compute; reflexivity.
Defined.

(** X3: the handles one call of [follow_links] attaches are pairwise
    different, none of them was a node of the graph when the call began, and
    all of them are nodes when it returns; no node is lost. *)
Theorem follow_links_attaches_new_nodes `{libxml2} (p : params)
    (url : string) (net : tGraph) (mh : CURLM) (mem : string) :
  let r := follow_links p url net mh mem in
  exists new : list string,
    added (r.1.2) = added mh ++ new
    /\ NoDup new
    /\ (forall l, l ∈ new ->
          NGraph.find net l = None /\ is_Some (NGraph.find (r.1.1) l))
    /\ (forall v, is_Some (NGraph.find net v) ->
          is_Some (NGraph.find (r.1.1) v)).
Proof.
  cbv zeta. destruct (follow_links p url net mh mem) as [[net' mh'] n] eqn:E.
  apply follow_links_attached in E
    as (new & Ha & _ & _ & _ & Hd & Hfresh & Hnd).
  exists new. cbn [fst snd]. unfold NGraph.find. split_and!; try assumption.
  - intros l Hl. apply Hfresh in Hl as [Hx Hy]. split.
    + now apply not_elem_of_dom.
    + now apply elem_of_dom.
  - intros v Hv. apply elem_of_dom. apply Hd. now apply elem_of_dom.
Qed.

(** X4: on a run in which every finished transfer the transport reports
    is one of an attached handle, the number of attached handles is
    [pending + 1], the number of handles ever attached is
    [complete + pending + 1], and [pending] is at least -1. *)
Theorem in_flight_and_scheduled `{libxml2} (p : params)
    (rounds : list round) :
  rounds_attached p (initial p) rounds ->
  let st := crawl p rounds in
  Z.of_nat (length (handles (multi_handle st))) = (pending st + 1)%Z
  /\ Z.of_nat (length (added (multi_handle st)))
     = (complete st + pending st + 1)%Z
  /\ (-1 <= pending st)%Z.
Proof.
  intros Hr. cbv zeta.
  destruct (counted_main_loop p rounds (initial p) Hr (counted_initial p))
    as [Hp Ha].
  fold (crawl p rounds) in Hp, Ha. split_and!; try assumption. lia.
Qed.

Lemma in_flight_and_scheduled_witness :
  let rounds :=
    [Runs.seed_round Sample.page5;
     {| pending_interrupt := false; running := 4;
        msgs := [Runs.over_cap_msg] |}] in
  let st := crawl (default_params Sample.seed) rounds in
  rounds_attached (default_params Sample.seed)
    (initial (default_params Sample.seed)) rounds
  /\ Z.of_nat (length (handles (multi_handle st))) = (pending st + 1)%Z.
Proof.
  cbv zeta.
  assert (Hr : rounds_attached (default_params Sample.seed)
                 (initial (default_params Sample.seed))
                 [Runs.seed_round Sample.page5;
                  {| pending_interrupt := false; running := 4;
                     msgs := [Runs.over_cap_msg] |}]).
  { vm_compute. repeat split; intros _; repeat constructor. }
  split; [exact Hr|].
  apply (in_flight_and_scheduled (default_params Sample.seed) _ Hr).
Defined.

(** X5: what the admission test does keep, after every message of every
    run: [pending] is at most [max_requests + max_link_per_page - 1] and
    [complete + pending] at most [max_total + max_link_per_page] (or 0, when
    these are negative). *)
Theorem pending_stays_near_cap `{libxml2} (p : params)
    (rounds : list round) :
  let st := crawl p rounds in
  (pending st
   <= Z.max 0 (max_requests p + Z.of_N (max_link_per_page p) - 1))%Z
  /\ (complete st + pending st
      <= Z.max 0 (max_total p + Z.of_N (max_link_per_page p)))%Z.
Proof.
  cbv zeta. apply (near_caps_main_loop p rounds (initial p)).
  apply near_caps_initial.
Qed.

(** ** The graph: edges *)

Section EdgeFacts.

Implicit Types (g : gmap string (gset string)) (a b v w : string).

Lemma out_neighbors_insert_vertex g v w :
  out_neighbors (insert_vertex g v) w = out_neighbors g w.
Proof.
  unfold out_neighbors, insert_vertex. destruct (g !! v) eqn:E; [done|].
  destruct (decide (v = w)) as [->|Hne].
  - now rewrite lookup_insert_eq, E.
  - now rewrite lookup_insert_ne.
Qed.

Lemma out_neighbors_insert_edge_eq g a b :
  out_neighbors (insert_edge g a b) a = {[ b ]} ∪ out_neighbors g a.
Proof.
  unfold insert_edge. unfold out_neighbors at 1. rewrite lookup_insert_eq.
  cbn. now rewrite !out_neighbors_insert_vertex.
Qed.

Lemma out_neighbors_insert_edge_ne g a b v :
  v ≠ a -> out_neighbors (insert_edge g a b) v = out_neighbors g v.
Proof.
  intros Hne. unfold insert_edge. unfold out_neighbors at 1.
  rewrite lookup_insert_ne by done.
  fold (out_neighbors (insert_vertex (insert_vertex g a) b) v).
  now rewrite !out_neighbors_insert_vertex.
Qed.

Lemma insert_vertex_known g v : v ∈ dom g -> insert_vertex g v = g.
Proof.
  intros Hv. apply elem_of_dom in Hv as [s Hs]. unfold insert_vertex.
  now rewrite Hs.
Qed.

(** Recording an edge a second time changes nothing. *)
Lemma insert_edge_recorded g a b :
  a ∈ dom g -> b ∈ dom g -> b ∈ out_neighbors g a -> insert_edge g a b = g.
Proof.
  intros Ha Hb Hout. unfold insert_edge.
  rewrite (insert_vertex_known g a) by done.
  rewrite (insert_vertex_known g b) by done.
  apply elem_of_dom in Ha as [s Hs]. apply insert_id.
  unfold out_neighbors in *. rewrite Hs in *. cbn in *. f_equal.
  apply set_eq. set_solver.
Qed.

End EdgeFacts.

(** ** follow_links: the edges it records *)

Section LoopEdges.

Context `{libxml2}.
Variable p : params.
Variable url : string.

Lemma next_link_eligible uri href uri' link :
  next_link p url uri href = (uri', Some link) ->
  (strlen link <? 20)%N = false ->
  is_http link = true ->
  eligible link.
Proof.
  intros E Hlen Hhttp. split_and!; [now apply N.ltb_ge | done |].
  exists uri'. split.
  - now rewrite <- (next_link_fragment p url uri href), E.
  - pose proof (next_link_saved p url uri href) as S. now rewrite E in S.
Qed.

Lemma follow_links_loop_dom nodes :
  forall uri count net mh net' mh' n,
  follow_links_loop p url nodes uri count net mh = (net', mh', n) ->
  dom net ⊆ dom net'.
Proof.
  induction nodes as [|href rest IH]; intros uri count net mh net' mh' n.
  - cbn. now intros [= <- <- <-].
  - cbn [follow_links_loop].
    destruct (next_link p url uri href) as [uri' [link|]]; [|now apply IH].
    destruct (strlen link <? 20)%N; [now apply IH|].
    destruct (is_http link); [|now apply IH].
    destruct (NGraph.find net link).
    + intros R. apply IH in R. rewrite dom_insert_edge in R. set_solver.
    + destruct (count =? max_link_per_page p)%N.
      * intros [= <- <- <-]. rewrite dom_insert_edge. set_solver.
      * intros R. apply IH in R. rewrite dom_insert_edge in R. set_solver.
Qed.

(** The loop records edges that leave [url] only, removes none, and every
    edge, node and handle it adds is an eligible link (or [url] itself, as a
    node). *)
Lemma follow_links_loop_edges nodes :
  forall uri count net mh net' mh' n,
  follow_links_loop p url nodes uri count net mh = (net', mh', n) ->
  (forall v, v ≠ url -> out_neighbors net' v = out_neighbors net v)
  /\ out_neighbors net url ⊆ out_neighbors net' url
  /\ (forall l, l ∈ out_neighbors net' url ->
        l ∈ out_neighbors net url
        \/ (eligible l /\ l ∈ dom net' /\ url ∈ dom net'))
  /\ (forall v, v ∈ dom net' -> v ∈ dom net \/ v = url \/ eligible v)
  /\ (forall h, h ∈ added mh' -> h ∈ added mh \/ eligible h).
Proof.
  induction nodes as [|href rest IH]; intros uri count net mh net' mh' n.
  - cbn [follow_links_loop]. intros [= <- <- <-]. split_and!; auto.
  - cbn [follow_links_loop].
    destruct (next_link p url uri href) as [uri' [link|]] eqn:E;
      [|now apply IH].
    destruct (strlen link <? 20)%N eqn:Hlen; [now apply IH|].
    destruct (is_http link) eqn:Hhttp; [|now apply IH].
    pose proof (next_link_eligible _ _ _ _ E Hlen Hhttp) as Hel.
    assert (Hstep : forall count' mh1,
      (forall h, h ∈ added mh1 -> h ∈ added mh \/ eligible h) ->
      follow_links_loop p url rest uri' count' (insert_edge net url link) mh1
      = (net', mh', n) ->
      (forall v, v ≠ url -> out_neighbors net' v = out_neighbors net v)
      /\ out_neighbors net url ⊆ out_neighbors net' url
      /\ (forall l, l ∈ out_neighbors net' url ->
            l ∈ out_neighbors net url
            \/ (eligible l /\ l ∈ dom net' /\ url ∈ dom net'))
      /\ (forall v, v ∈ dom net' -> v ∈ dom net \/ v = url \/ eligible v)
      /\ (forall h, h ∈ added mh' -> h ∈ added mh \/ eligible h)).
    { intros count' mh1 Hmh1 R.
      pose proof (IH _ _ _ _ _ _ _ R) as (Hfr & Hsub & Hnew & Hdom & Hadd).
      pose proof (follow_links_loop_dom _ _ _ _ _ _ _ _ R) as Hd.
      rewrite dom_insert_edge in Hd.
      rewrite out_neighbors_insert_edge_eq in Hsub, Hnew.
      split_and!.
      - intros v Hv. rewrite Hfr by done.
        now apply out_neighbors_insert_edge_ne.
      - set_solver.
      - intros l Hl. apply Hnew in Hl as [Hl|Hl]; [|now right].
        apply elem_of_union in Hl as [Hl|Hl]; [|now left].
        apply elem_of_singleton in Hl as ->. right.
        split_and!; [done|set_solver|set_solver].
      - intros v Hv. apply Hdom in Hv as [Hv|[Hv|Hv]]; auto.
        rewrite dom_insert_edge in Hv.
        apply elem_of_union in Hv as [Hv|Hv]; [|now left].
        apply elem_of_union in Hv as [Hv|Hv];
          apply elem_of_singleton in Hv as ->; auto.
      - intros h Hh. apply Hadd in Hh as [Hh|Hh]; auto. }
    destruct (NGraph.find net link) as [s|].
    + apply Hstep. auto.
    + destruct (count =? max_link_per_page p)%N.
      * intros [= <- <- <-].
        rewrite out_neighbors_insert_edge_eq, dom_insert_edge.
        split_and!.
        -- intros v Hv. now apply out_neighbors_insert_edge_ne.
        -- set_solver.
        -- intros l Hl. apply elem_of_union in Hl as [Hl|Hl]; [|now left].
           apply elem_of_singleton in Hl as ->. right.
           split_and!; [done|set_solver|set_solver].
        -- intros v Hv.
           apply elem_of_union in Hv as [Hv|Hv]; [|now left].
           apply elem_of_union in Hv as [Hv|Hv];
             apply elem_of_singleton in Hv as ->; auto.
        -- intros h Hh. cbn in Hh. apply elem_of_app in Hh as [Hh|Hh]; auto.
           apply list_elem_of_singleton in Hh as ->. now right.
      * apply Hstep. intros h Hh. cbn in Hh.
        apply elem_of_app in Hh as [Hh|Hh]; auto.
        apply list_elem_of_singleton in Hh as ->. now right.
Qed.

(** Following the same hrefs again, on a graph that has everything the
    first pass recorded, changes nothing, provided the first pass was not
    cut short by the cap. *)
Lemma follow_links_loop_again nodes :
  forall uri count net mh net' mh' n,
  follow_links_loop p url nodes uri count net mh = (net', mh', n) ->
  (count <= max_link_per_page p)%N ->
  (n <= max_link_per_page p)%N ->
  forall (g : tGraph) (count2 : N) (mh2 : CURLM),
  dom net' ⊆ dom g ->
  out_neighbors net' url ⊆ out_neighbors g url ->
  follow_links_loop p url nodes uri count2 g mh2 = (g, mh2, count2).
Proof.
  induction nodes as [|href rest IH]; intros uri count net mh net' mh' n;
    [reflexivity|].
  cbn [follow_links_loop].
  destruct (next_link p url uri href) as [uri' [link|]]; [|now apply IH].
  destruct (strlen link <? 20)%N; [now apply IH|].
  destruct (is_http link); [|now apply IH].
  assert (Hstep : forall count' mh1,
    follow_links_loop p url rest uri' count' (insert_edge net url link) mh1
    = (net', mh', n) ->
    (count' <= max_link_per_page p)%N ->
    (n <= max_link_per_page p)%N ->
    forall (g : tGraph) (count2 : N) (mh2 : CURLM),
    dom net' ⊆ dom g ->
    out_neighbors net' url ⊆ out_neighbors g url ->
    match NGraph.find g link with
    | Some _ =>
        follow_links_loop p url rest uri' count2 (insert_edge g url link) mh2
    | None =>
        if (count2 =? max_link_per_page p)%N
        then (insert_edge g url link,
              curl_multi_add_handle mh2 (make_handle link), N.succ count2)
        else follow_links_loop p url rest uri' (N.succ count2)
               (insert_edge g url link)
               (curl_multi_add_handle mh2 (make_handle link))
    end = (g, mh2, count2)).
  { intros count' mh1 R Hc Hn g count2 mh2 Hdom Hout.
    pose proof (follow_links_loop_dom _ _ _ _ _ _ _ _ R) as Hd.
    pose proof (follow_links_loop_edges _ _ _ _ _ _ _ _ R)
      as (_ & Hsub & _).
    rewrite dom_insert_edge in Hd.
    rewrite out_neighbors_insert_edge_eq in Hsub.
    assert (Hlg : link ∈ dom g) by set_solver.
    assert (Hug : url ∈ dom g) by set_solver.
    apply elem_of_dom in Hlg as Hl'. destruct Hl' as [s Hs].
    unfold NGraph.find. rewrite Hs.
    rewrite insert_edge_recorded by set_solver.
    eapply IH; eauto. }
  destruct (NGraph.find net link) as [s|].
  - intros R Hc Hn. now apply (Hstep count mh).
  - destruct (count =? max_link_per_page p)%N eqn:Hcap.
    + intros [= <- <- <-] Hc Hn. apply N.eqb_eq in Hcap. lia.
    + intros R Hc Hn. apply N.eqb_neq in Hcap.
      apply (Hstep _ _ R); [lia|done].
Qed.

End LoopEdges.

Section FollowLinksEdges.

Context `{libxml2}.
Variable p : params.
Variable url : string.

Lemma follow_links_loop_new_eligible nodes :
  forall uri count net mh net' mh' n,
  follow_links_loop p url nodes uri count net mh = (net', mh', n) ->
  exists new : list string,
    added mh' = added mh ++ new /\ Forall eligible new.
Proof.
  induction nodes as [|href rest IH]; intros uri count net mh net' mh' n.
  - cbn. intros [= <- <- <-]. exists []. now rewrite app_nil_r.
  - cbn [follow_links_loop].
    destruct (next_link p url uri href) as [uri' [link|]] eqn:E;
      [|now apply IH].
    destruct (strlen link <? 20)%N eqn:Hlen; [now apply IH|].
    destruct (is_http link) eqn:Hhttp; [|now apply IH].
    pose proof (next_link_eligible _ _ _ _ _ _ E Hlen Hhttp) as Hel.
    destruct (NGraph.find net link); [now apply IH|].
    destruct (count =? max_link_per_page p)%N.
    + intros [= <- <- <-]. exists [link]. split; [done|].
      constructor; [exact Hel|constructor].
    + intros R. apply IH in R as (new & Ha & Hall).
      exists (link :: new). split; [|now constructor].
      rewrite Ha. cbn. now rewrite <- app_assoc.
Qed.

(** [follow_links] as a whole: see [follow_links_loop_edges],
    [follow_links_loop_new_eligible] and [follow_links_attached]. *)
Lemma follow_links_edges net mh mem net' mh' n :
  follow_links p url net mh mem = (net', mh', n) ->
  (forall v, v ≠ url -> out_neighbors net' v = out_neighbors net v)
  /\ out_neighbors net url ⊆ out_neighbors net' url
  /\ (forall l, l ∈ out_neighbors net' url ->
        l ∈ out_neighbors net url
        \/ (eligible l /\ l ∈ dom net' /\ url ∈ dom net'))
  /\ (forall v, v ∈ dom net' -> v ∈ dom net \/ v = url \/ eligible v)
  /\ (exists new : list string,
        added mh' = added mh ++ new /\ Forall eligible new).
Proof.
  assert (Hnil : (net, mh, 0%N) = (net', mh', n) ->
    (forall v, v ≠ url -> out_neighbors net' v = out_neighbors net v)
    /\ out_neighbors net url ⊆ out_neighbors net' url
    /\ (forall l, l ∈ out_neighbors net' url ->
          l ∈ out_neighbors net url
          \/ (eligible l /\ l ∈ dom net' /\ url ∈ dom net'))
    /\ (forall v, v ∈ dom net' -> v ∈ dom net \/ v = url \/ eligible v)
    /\ (exists new : list string,
          added mh' = added mh ++ new /\ Forall eligible new)).
  { intros [= <- <- <-]. split_and!; auto.
    exists []. now rewrite app_nil_r. }
  unfold follow_links.
  destruct (negb _); [exact Hnil|].
  destruct (href_nodes mem url) as [[|href rest]|]; try exact Hnil.
  intros E.
  pose proof (follow_links_loop_edges _ _ _ _ _ _ _ _ _ _ E)
    as (H1 & H2 & H3 & H4 & _).
  split_and!; try assumption.
  now apply follow_links_loop_new_eligible in E.
Qed.

Lemma follow_links_under_seed net mh mem :
  no_nul (start_url p) = true ->
  String.prefix (start_url p) url = true
  \/ follow_links p url net mh mem = (net, mh, 0%N).
Proof.
  intros Hn. unfold follow_links. rewrite (strncmp_prefix _ _ Hn).
  destruct (String.prefix (start_url p) url); [now left|now right].
Qed.

End FollowLinksEdges.

(** X6: [follow_links] on the page [url] only records edges that leave
    [url]: the out-edges of every other node stay as they were, no edge of
    [url] is removed, and each edge, node and handle it adds is an eligible
    link (at least 20 characters, under [http://] or [https://], the saved
    form of a URI without fragment), the only other new node being [url]
    itself. *)
Theorem follow_links_records_from_page `{libxml2} (p : params)
    (url : string) (net : tGraph) (mh : CURLM) (mem : string) :
  let r := follow_links p url net mh mem in
  (forall v, v ≠ url -> out_neighbors (r.1.1) v = out_neighbors net v)
  /\ out_neighbors net url ⊆ out_neighbors (r.1.1) url
  /\ (forall l, l ∈ out_neighbors (r.1.1) url ->
        l ∈ out_neighbors net url \/ eligible l)
  /\ (forall v, v ∈ dom (r.1.1) -> v ∈ dom net \/ v = url \/ eligible v)
  /\ (forall h, h ∈ added (r.1.2) -> h ∈ added mh \/ eligible h).
Proof.
  cbv zeta. destruct (follow_links p url net mh mem) as [[net' mh'] n] eqn:E.
  apply follow_links_edges in E as (H1 & H2 & H3 & H4 & new & Ha & Hel).
  cbn [fst snd]. split_and!; try assumption.
  - intros l Hl. apply H3 in Hl as [Hl|[Hl _]]; auto.
  - intros h Hh. rewrite Ha in Hh. apply elem_of_app in Hh as [Hh|Hh]; auto.
    right. rewrite Forall_forall in Hel. now apply Hel.
Qed.

(** X7: when a call of [follow_links] returned without reaching the cap
    ([count <= max_link_per_page]), following the same page again on the
    graph it left records and attaches nothing. *)
Theorem follow_links_again_is_idle `{libxml2} (p : params) (url : string)
    (net : tGraph) (mh mh2 : CURLM) (mem : string) :
  let r := follow_links p url net mh mem in
  (r.2 <= max_link_per_page p)%N ->
  follow_links p url (r.1.1) mh2 mem = (r.1.1, mh2, 0%N).
Proof.
  cbv zeta. destruct (follow_links p url net mh mem) as [[net' mh'] n] eqn:E.
  cbn [fst snd]. intros Hn. revert E. unfold follow_links.
  destruct (negb _); [now intros [= <- <- <-]|].
  destruct (href_nodes mem url) as [[|href rest]|];
    try now intros [= <- <- <-].
  intros E. eapply follow_links_loop_again; eauto. lia.
Qed.

Lemma follow_links_again_is_idle_witness :
  let p := default_params Sample.seed in
  let r := follow_links p Sample.seed ∅ curl_multi_init Sample.page5 in
  r.2 = 5%N
  /\ follow_links p Sample.seed (r.1.1) (r.1.2) Sample.page5
     = (r.1.1, r.1.2, 0%N).
Proof.
  cbv zeta. split; [reflexivity|].
  apply (follow_links_again_is_idle (default_params Sample.seed) Sample.seed
           ∅ curl_multi_init).
  vm_compute. discriminate.
Defined.

(** ** Invariants along a run *)

Section RunFacts.

Context `{libxml2}.
Variable p : params.

(** What is true of the initial state and kept by every message is true of
    every state the loop reaches. *)
Lemma read_msgs_invariant (I : state -> Prop) :
  (forall st m, I st -> I (on_msg p st m)) ->
  forall ms st, I st -> I (read_msgs p st ms).
Proof.
  intros Hstep ms. induction ms as [|m ms IH]; intros st Hst; [exact Hst|].
  cbn [read_msgs fold_left]. apply IH. now apply Hstep.
Qed.

Lemma main_loop_invariant (I : state -> Prop) :
  (forall st m, I st -> I (on_msg p st m)) ->
  (forall st r, I st -> I (enter_round st r)) ->
  forall rounds st, I st -> I (main_loop p rounds st).
Proof.
  intros Hstep Hround rounds.
  induction rounds as [|r rounds IH]; intros st Hst; [exact Hst|].
  cbn [main_loop]. destruct (negb _ && negb _); [|exact Hst].
  apply IH. apply read_msgs_invariant; [exact Hstep|]. now apply Hround.
Qed.

(** [classify] either leaves the graph and the multi handle alone or sets
    them to what [follow_links] returns. *)
Lemma classify_cases st m :
  (network (classify p st m) = network st
   /\ multi_handle (classify p st m) = multi_handle st)
  \/ (exists n,
        follow_links p (effective_url m) (network st) (multi_handle st)
          (private_mem m)
        = (network (classify p st m), multi_handle (classify p st m), n)).
Proof.
  unfold classify.
  destruct (result m =? CURLE_OK)%Z; [|now left].
  destruct (response_code m =? 200)%Z; [|now left].
  destruct (is_html _ && _); [|now left].
  destruct (admission p st); [|now left].
  destruct (follow_links _ _ _ _ _) as [[net mh] n]. right. now exists n.
Qed.

Lemma scheduled_once_initial : scheduled_once p (initial p).
Proof.
  exists []. split_and!; [reflexivity|constructor|].
  intros l Hl. inversion Hl.
Qed.

Lemma scheduled_once_on_msg st m :
  scheduled_once p st -> scheduled_once p (on_msg p st m).
Proof.
  intros (new & Ha & Hnd & Hin). unfold on_msg.
  destruct (msg m); [now exists new|].
  unfold scheduled_once. cbn [retire network multi_handle added
                              curl_multi_remove_handle].
  destruct (classify_cases st m) as [[-> ->]|[n E]]; [now exists new|].
  destruct (follow_links_attached _ _ _ _ _ _ _ _ E)
    as (new1 & Ha1 & _ & _ & _ & Hd & Hfresh & Hnd1).
  destruct (follow_links_edges _ _ _ _ _ _ _ _ E)
    as (_ & _ & _ & _ & new2 & Ha2 & Hel).
  assert (new2 = new1) as -> by (rewrite Ha1 in Ha2; now simplify_list_eq).
  rewrite Forall_forall in Hel.
  exists (new ++ new1). split_and!.
  - now rewrite Ha1, Ha.
  - apply NoDup_app. split_and!; try assumption.
    intros l Hl Hl1. apply Hin in Hl as [Hl _].
    apply Hfresh in Hl1 as [Hl1 _]. contradiction.
  - intros l Hl. apply elem_of_app in Hl as [Hl|Hl].
    + apply Hin in Hl as [Hl He]. split; [set_solver|exact He].
    + split; [now apply Hfresh|now apply Hel].
Qed.

Lemma within_seed_empty : within_seed p ∅.
Proof.
  split.
  - intros v l Hl. unfold out_neighbors in Hl. rewrite lookup_empty in Hl.
    cbn in Hl. set_solver.
  - intros v Hv. rewrite dom_empty_L in Hv. set_solver.
Qed.

Lemma within_seed_on_msg st m :
  no_nul (start_url p) = true ->
  within_seed p (network st) -> within_seed p (network (on_msg p st m)).
Proof.
  intros Hn [Hedge Hnode]. unfold on_msg. destruct (msg m); [now split|].
  cbn [retire network].
  destruct (classify_cases st m) as [[-> _]|[n E]]; [now split|].
  destruct (follow_links_under_seed p (effective_url m) (network st)
              (multi_handle st) (private_mem m) Hn) as [Hpre|Hidle].
  - destruct (follow_links_edges _ _ _ _ _ _ _ _ E)
      as (Hfr & _ & Hnew & Hdom & _).
    split.
    + intros v l Hl. destruct (decide (v = effective_url m)) as [->|Hne].
      * apply Hnew in Hl as [Hl|[Hl _]]; [now apply Hedge|now split].
      * rewrite Hfr in Hl by done. now apply Hedge.
    + intros v Hv. apply Hdom in Hv as [Hv|[->|Hv]]; auto.
  - rewrite Hidle in E. injection E as <- _ _. now split.
Qed.

Lemma grows_refl st : grows st st.
Proof. unfold grows. split_and!; try done; lia. Qed.

Lemma grows_trans st1 st2 st3 :
  grows st1 st2 -> grows st2 st3 -> grows st1 st3.
Proof.
  intros (A1 & B1 & C1 & D1 & E1) (A2 & B2 & C2 & D2 & E2).
  unfold grows. split_and!.
  - set_solver.
  - intros v. specialize (B1 v). specialize (B2 v). set_solver.
  - now transitivity (broken_links st2).
  - now transitivity (added (multi_handle st2)).
  - lia.
Qed.

Lemma grows_on_msg st m : grows st (on_msg p st m).
Proof.
  unfold on_msg. destruct (msg m); [apply grows_refl|].
  unfold grows. cbn [retire network multi_handle added broken_links complete
                      curl_multi_remove_handle].
  rewrite classify_broken_links, classify_counts_complete.
  assert (Hb : broken_links st `prefix_of`
    (if (result m =? CURLE_OK)%Z && negb (response_code m =? 200)%Z
     then broken_links st
          ++ [(int_of_long (response_code m), effective_url m)]
     else broken_links st)).
  { destruct (_ && _); [now apply prefix_app_r|done]. }
  destruct (classify_cases st m) as [[-> ->]|[n E]].
  - split_and!; try done; lia.
  - destruct (follow_links_attached _ _ _ _ _ _ _ _ E)
      as (new & Ha & _ & _ & _ & Hd & _).
    destruct (follow_links_edges _ _ _ _ _ _ _ _ E)
      as (Hfr & Hsub & _).
    split_and!; try done; try lia.
    + intros v. destruct (decide (v = effective_url m)) as [->|Hne];
        [done|now rewrite Hfr].
    + rewrite Ha. now apply prefix_app_r.
Qed.

Lemma grows_main_loop rounds st : grows st (main_loop p rounds st).
Proof.
  apply (main_loop_invariant (grows st)).
  - intros st1 m Hg. eapply grows_trans; [exact Hg|apply grows_on_msg].
  - intros st1 r Hg. exact Hg.
  - apply grows_refl.
Qed.

(** [broken_links] and [complete] after one message and after a batch. *)
Lemma on_msg_broken_links st m :
  broken_links (on_msg p st m)
  = broken_links st
    ++ (if http_error m
        then [(int_of_long (response_code m), effective_url m)] else [])
  /\ complete (on_msg p st m)
     = (complete st + if is_done m then 1 else 0)%Z.
Proof.
  unfold on_msg, http_error, is_done. destruct (msg m).
  - rewrite app_nil_r. split; [done|lia].
  - cbn [retire broken_links complete].
    rewrite classify_broken_links, classify_counts_complete.
    split; [|done]. destruct (_ && negb _); [done|now rewrite app_nil_r].
Qed.

Lemma read_msgs_broken_links ms : forall st,
  broken_links (read_msgs p st ms)
  = broken_links st
    ++ map (fun m => (int_of_long (response_code m), effective_url m))
         (filter (fun m => http_error m = true) ms)
  /\ complete (read_msgs p st ms)
     = (complete st
        + Z.of_nat (length (filter (fun m => is_done m = true) ms)))%Z.
Proof.
  induction ms as [|m ms IH]; intros st.
  - cbn. rewrite app_nil_r. split; [done|lia].
  - cbn [read_msgs fold_left]. fold (read_msgs p (on_msg p st m) ms).
    destruct (IH (on_msg p st m)) as [-> ->].
    destruct (on_msg_broken_links st m) as [-> ->].
    rewrite !filter_cons.
    destruct (http_error m), (is_done m);
      repeat case_decide; try done; cbn [map length app];
      rewrite <- ?app_assoc, ?app_nil_r; cbn [app]; split; try done; lia.
Qed.

Lemma main_loop_broken_links rounds : forall st,
  broken_links (main_loop p rounds st)
  = broken_links st
    ++ map (fun m => (int_of_long (response_code m), effective_url m))
         (filter (fun m => http_error m = true) (consumed p rounds st))
  /\ complete (main_loop p rounds st)
     = (complete st
        + Z.of_nat (length (filter (fun m => is_done m = true)
                              (consumed p rounds st))))%Z.
Proof.
  induction rounds as [|r rounds IH]; intros st.
  - cbn. rewrite app_nil_r. split; [done|lia].
  - cbn [main_loop consumed]. destruct (negb _ && negb _).
    + destruct (IH (read_msgs p (enter_round st r) (msgs r))) as [-> ->].
      destruct (read_msgs_broken_links (msgs r) (enter_round st r))
        as [-> ->].
      cbn [enter_round broken_links complete].
      rewrite !filter_app, map_app, length_app, <- app_assoc.
      split; [done|lia].
    + cbn. rewrite app_nil_r. split; [done|lia].
Qed.

Lemma main_loop_stopped rounds : forall st more,
  still_running (main_loop p rounds st) = 0%Z ->
  main_loop p (rounds ++ more) st = main_loop p rounds st.
Proof.
  induction rounds as [|r rounds IH]; intros st more Hs.
  - cbn in *. destruct more as [|r more]; [done|].
    cbn [main_loop]. now rewrite Hs.
  - cbn [main_loop app] in *. destruct (negb _ && negb _); [|done].
    now apply IH.
Qed.

End RunFacts.

(** ** writer *)

Section WriterFacts.

Lemma append_assoc (a b c : string) : (a +:+ b) +:+ c = a +:+ (b +:+ c).
Proof.
  induction a as [|x a IH]; [reflexivity|].
  change (String x ((a +:+ b) +:+ c) = String x (a +:+ (b +:+ c))).
  now f_equal.
Qed.

Lemma append_empty_r (a : string) : a +:+ "" = a.
Proof.
  induction a as [|x a IH]; [reflexivity|].
  change (String x (a +:+ "") = String x a). now f_equal.
Qed.

Lemma substring_all (s : string) : String.substring 0 (String.length s) s = s.
Proof.
  induction s as [|x s IH]; [reflexivity|].
  cbn [String.length String.substring]. now f_equal.
Qed.

Lemma size_mul_1 (n : N) : (n < SIZE_MAX1)%N -> size_mul 1 n = n.
Proof.
  intros Hn. unfold size_mul. rewrite N.mul_1_l. now apply N.mod_small.
Qed.

Lemma int_of_size_t_small (n : N) :
  (n < 2147483648)%N -> int_of_size_t n = Z.of_N n.
Proof. intros Hn. unfold int_of_size_t. apply int_of_long_small. lia. Qed.

Lemma int_of_long_range (z : Z) :
  (-2147483648 <= int_of_long z < 2147483648)%Z.
Proof.
  unfold int_of_long.
  pose proof (Z.mod_pos_bound (z + 2147483648) 4294967296 eq_refl). lia.
Qed.

(** A whole chunk of less than 2^31 bytes is appended and reported as
    taken. *)
Lemma writer_chunk (chunk buf : string) :
  (strlen chunk < 2147483648)%N ->
  writer chunk 1 (strlen chunk) (Some buf)
  = (Some (buf +:+ chunk), Z.of_N (strlen chunk)).
Proof.
  intros Hn. unfold writer.
  rewrite size_mul_1 by (unfold SIZE_MAX1; lia).
  rewrite int_of_size_t_small by done.
  unfold strlen at 1. rewrite Nat2N.id, substring_all. reflexivity.
Qed.

End WriterFacts.

(** X14: a body that libcurl delivers in chunks of less than 2^31 bytes
    each ends up in the buffer whole and in order: the buffer is what it was
    followed by the chunks, and no chunk is refused. *)
Theorem deliver_concatenates (chunks : list string) (buf : string) :
  Forall (fun c => (strlen c < 2147483648)%N) chunks ->
  deliver chunks (Some buf)
  = Some (Some (buf +:+ fold_right String.append "" chunks)).
Proof.
  revert buf. induction chunks as [|c chunks IH]; intros buf Hall.
  - cbn. now rewrite append_empty_r.
  - apply Forall_cons in Hall as [Hc Hall]. cbn [deliver fold_right].
    rewrite writer_chunk by done. rewrite Z.eqb_refl.
    rewrite IH by done. now rewrite append_assoc.
Qed.

Lemma deliver_concatenates_witness :
  deliver ["<html>"; "<body>"; "</body></html>"] (Some "")
  = Some (Some "<html><body></body></html>").
Proof.
  apply (deliver_concatenates ["<html>"; "<body>"; "</body></html>"] "").
  repeat constructor.
Defined.

(** X15: without a buffer ([writerData] null) [writer] takes nothing, so
    the transfer survives only if every chunk is empty. *)
Theorem deliver_without_buffer (chunks : list string) :
  deliver chunks None
  = if forallb (fun c => (strlen c =? 0)%N) chunks then Some None else None.
Proof.
  induction chunks as [|c chunks IH]; [reflexivity|].
  cbn [deliver writer forallb].
  destruct (strlen c =? 0)%N eqn:E.
  - apply N.eqb_eq in E. rewrite E. cbn. exact IH.
  - apply N.eqb_neq in E.
    assert (E' : (0 =? Z.of_N (strlen c))%Z = false) by (apply Z.eqb_neq; lia).
    now rewrite E'.
Qed.

(** ** The command line *)

Section CommandLineFacts.

Lemma strlen_zero (s : string) : (strlen s =? 0)%N = String.eqb s "".
Proof. now destruct s. Qed.

Lemma stoi_range (s : string) (n : Z) :
  Stoi.stoi s = Stoi.value n -> (-2147483648 <= n <= 2147483647)%Z.
Proof.
  unfold Stoi.stoi.
  destruct (match Stoi.skip_spaces s with
            | String "-" r => (true, r)
            | String "+" r => (false, r)
            | _ => (false, Stoi.skip_spaces s)
            end) as [neg s'].
  destruct s' as [|c r]; [discriminate|].
  destruct (Stoi.isdigit c); [|discriminate]. cbv zeta.
  set (v := if neg then _ else _).
  destruct (_ || _) eqn:E; [discriminate|].
  intros [= <-]. apply orb_false_elim in E as [E1 E2].
  apply Z.ltb_ge in E1, E2. lia.
Qed.

Lemma size_t_of_int_range (z : Z) : (size_t_of_int z < SIZE_MAX1)%N.
Proof.
  unfold size_t_of_int, SIZE_MAX1.
  pose proof (Z.mod_pos_bound z 18446744073709551616 eq_refl). lia.
Qed.

Lemma cli_ok_set_number f c n :
  cli_ok c -> (-2147483648 <= n <= 2147483647)%Z -> cli_ok (set_number f c n).
Proof.
  intros (A & B & C & D & E) Hn. unfold cli_ok.
  destruct f; cbn; split_and!;
    first [assumption | lia | apply size_t_of_int_range].
Qed.

(** How [parse_loop] can end, from a state in which no URL is set. *)
Lemma parse_loop_outcome (n : nat) : forall args c,
  length args <= n ->
  cli_start_url c = None -> cli_ok c ->
  match parse_loop args c with
  | Go c' =>
      cli_ok c'
      /\ (cli_start_url c' = None
          \/ exists front u,
               args = front ++ [u] /\ cli_start_url c' = Some u
               /\ flag_of u = no_flag)
  | Exit code =>
      (code = EXIT_SUCCESS /\
       exists a, a ∈ args /\ (flag_of a = flag_h \/ flag_of a = flag_V))
      \/ code = EXIT_FAILURE
  | Undefined =>
      exists front a, args = front ++ [a] /\ takes_number (flag_of a)
  end.
Proof.
  induction n as [|n IH]; intros args c Hlen Hurl Hok.
  - destruct args; [|cbn in Hlen; lia]. cbn. auto.
  - destruct args as [|arg rest]; [cbn; auto|]. cbn in Hlen.
    assert (Hrec : forall pre rest' c',
      arg :: rest = pre ++ rest' ->
      length rest' <= n -> cli_start_url c' = None -> cli_ok c' ->
      match parse_loop rest' c' with
      | Go c'' =>
          cli_ok c''
          /\ (cli_start_url c'' = None
              \/ exists front u,
                   arg :: rest = front ++ [u] /\ cli_start_url c'' = Some u
                   /\ flag_of u = no_flag)
      | Exit code =>
          (code = EXIT_SUCCESS /\
           exists a, a ∈ arg :: rest
                     /\ (flag_of a = flag_h \/ flag_of a = flag_V))
          \/ code = EXIT_FAILURE
      | Undefined =>
          exists front a,
            arg :: rest = front ++ [a] /\ takes_number (flag_of a)
      end).
    { intros pre rest' c' Hpre Hl Hu Ho.
      specialize (IH rest' c' Hl Hu Ho).
      destruct (parse_loop rest' c') as [code| |c''].
      - destruct IH as [[-> (a & Ha & Hf)] | ->]; [left|now right].
        split; [done|]. exists a. split; [|done].
        rewrite Hpre. apply elem_of_app. now right.
      - destruct IH as (front & a & -> & Hf).
        exists (pre ++ front), a. now rewrite Hpre, app_assoc.
      - destruct IH as [Hok' [Hn|(front & u & -> & Hu' & Hf)]];
          (split; [done|]); [now left|right].
        exists (pre ++ front), u. now rewrite Hpre, app_assoc. }
    assert (Hnum : takes_number (flag_of arg) ->
      match
        match rest with
        | [] => Undefined
        | v :: rest' =>
            match Stoi.stoi v with
            | Stoi.value k => parse_loop rest' (set_number (flag_of arg) c k)
            | _ => Exit EXIT_FAILURE
            end
        end
      with
      | Go c'' =>
          cli_ok c''
          /\ (cli_start_url c'' = None
              \/ exists front u,
                   arg :: rest = front ++ [u] /\ cli_start_url c'' = Some u
                   /\ flag_of u = no_flag)
      | Exit code =>
          (code = EXIT_SUCCESS /\
           exists a, a ∈ arg :: rest
                     /\ (flag_of a = flag_h \/ flag_of a = flag_V))
          \/ code = EXIT_FAILURE
      | Undefined =>
          exists front a,
            arg :: rest = front ++ [a] /\ takes_number (flag_of a)
      end).
    { intros Hf. destruct rest as [|v rest'].
      - now exists [], arg.
      - destruct (Stoi.stoi v) as [k| |] eqn:Ev; try now right.
        apply (Hrec [arg; v] rest' _ eq_refl); [cbn in Hlen; lia|done|].
        apply cli_ok_set_number; [done|]. now apply stoi_range in Ev. }
    cbn [parse_loop]. destruct (flag_of arg) eqn:Hf.
    + left. split; [done|]. exists arg. split; [apply list_elem_of_here|auto].
    + apply (Hrec [arg] rest _ eq_refl); [lia|done|].
      destruct Hok as (A & B & C & D & E). unfold cli_ok. cbn.
      pose proof (int_of_long_range
                    (Z.of_N (size_sub (strlen arg) 1))). unfold int_of_size_t.
      split_and!; first [assumption | lia].
    + left. split; [done|]. exists arg. split; [apply list_elem_of_here|auto].
    + apply Hnum. unfold takes_number. auto.
    + apply Hnum. unfold takes_number. auto.
    + apply Hnum. unfold takes_number. auto.
    + apply Hnum. unfold takes_number. auto.
    + destruct rest as [|v rest'].
      * split; [exact Hok|now left].
      * apply (Hrec [arg; v] rest' _ eq_refl);
          [cbn in Hlen; lia|done|exact Hok].
    + destruct rest as [|v rest']; [|now right].
      split; [exact Hok|right]. now exists [], arg.
Qed.

Lemma cli_ok_initial : cli_ok initial_cli.
Proof. unfold cli_ok, SIZE_MAX1. cbn. lia. Qed.

End CommandLineFacts.

(** X8: in every run, the handles ever attached are the seed followed by
    pairwise different links, each an eligible link and a node of the
    graph: discovery never schedules the same URL twice. *)
Theorem discovered_links_scheduled_once `{libxml2} (p : params)
    (rounds : list round) :
  let st := crawl p rounds in
  exists new : list string,
    added (multi_handle st) = start_url p :: new
    /\ NoDup new
    /\ (forall l, l ∈ new -> l ∈ dom (network st) /\ eligible l).
Proof.
  cbv zeta. apply (main_loop_invariant p (scheduled_once p)).
  - intros st m. apply scheduled_once_on_msg.
  - intros st r Hst. exact Hst.
  - apply scheduled_once_initial.
Qed.

(** X9: in every run from a seed that is a C string, each edge of the
    graph leaves a page whose URL begins with the seed and leads to an
    eligible link, and each node is such a page or such a link. *)
Theorem graph_stays_within_seed `{libxml2} (p : params)
    (rounds : list round) :
  no_nul (start_url p) = true ->
  let g := network (crawl p rounds) in
  (forall v l, l ∈ out_neighbors g v ->
     String.prefix (start_url p) v = true /\ eligible l)
  /\ (forall v, v ∈ dom g ->
        String.prefix (start_url p) v = true \/ eligible v).
Proof.
  intros Hn. cbv zeta.
  apply (main_loop_invariant p (fun st => within_seed p (network st))).
  - intros st m. now apply within_seed_on_msg.
  - intros st r Hst. exact Hst.
  - apply within_seed_empty.
Qed.

Lemma graph_stays_within_seed_witness :
  let p := default_params Sample.seed in
  let g := network (crawl p [Runs.seed_round Sample.page5]) in
  Runs.a_html ∈ out_neighbors g Sample.seed
  /\ String.prefix (start_url p) Sample.seed = true
  /\ eligible Runs.a_html.
Proof.
  cbv zeta.
  assert (Hin : Runs.a_html
                ∈ out_neighbors
                    (network (crawl (default_params Sample.seed)
                                [Runs.seed_round Sample.page5]))
                    Sample.seed).
  { vm_compute. set_solver. }
  split; [exact Hin|].
  destruct (graph_stays_within_seed (default_params Sample.seed)
              [Runs.seed_round Sample.page5] eq_refl) as [Hedge _].
  exact (Hedge _ _ Hin).
Defined.

(** X10: a run never forgets: from any state, after any rounds, the graph
    has the nodes and edges it had, [broken_links] and the log of attached
    handles have grown at their end only, and [complete] has not gone
    down. *)
Theorem run_only_grows `{libxml2} (p : params) (rounds : list round)
    (st : state) :
  let st' := main_loop p rounds st in
  dom (network st) ⊆ dom (network st')
  /\ (forall v, out_neighbors (network st) v
                ⊆ out_neighbors (network st') v)
  /\ broken_links st `prefix_of` broken_links st'
  /\ added (multi_handle st) `prefix_of` added (multi_handle st')
  /\ (complete st <= complete st')%Z.
Proof. cbv zeta. apply grows_main_loop. Qed.

(** X11: once the loop has ended with [still_running] at 0 (the transport
    reported no running transfer and no page was followed after that), more
    rounds change nothing. *)
Theorem loop_stopped_stays_stopped `{libxml2} (p : params)
    (rounds more : list round) (st : state) :
  still_running (main_loop p rounds st) = 0%Z ->
  main_loop p (rounds ++ more) st = main_loop p rounds st.
Proof. apply main_loop_stopped. Qed.

Lemma loop_stopped_stays_stopped_witness :
  let p := default_params Sample.seed in
  let rounds := [ {| pending_interrupt := false; running := 0;
                     msgs := [Sample.failed Sample.seed] |} ] in
  crawl p (rounds ++ [Runs.seed_round Sample.page5]) = crawl p rounds.
Proof.
  cbv zeta.
  apply (loop_stopped_stays_stopped (default_params Sample.seed)).
  reflexivity.
Defined.

(** X12: at the end of a run [broken_links] lists, in the order they were
    read, the status and effective URL of exactly the finished transfers
    that answered with another status than 200, and [complete] counts the
    finished transfers read. *)
Theorem broken_links_of_run `{libxml2} (p : params) (rounds : list round) :
  let st := crawl p rounds in
  let read := consumed p rounds (initial p) in
  broken_links st
  = map (fun m => (int_of_long (response_code m), effective_url m))
      (filter (fun m => http_error m = true) read)
  /\ complete st
     = Z.of_nat (length (filter (fun m => is_done m = true) read)).
Proof.
  cbv zeta. unfold crawl.
  destruct (main_loop_broken_links p rounds (initial p)) as [-> ->].
  cbn [initial broken_links complete app]. split; [done|lia].
Qed.

Lemma filter_nil_iff {A} (P : A -> Prop) `{!forall x, Decision (P x)}
    (l : list A) :
  filter P l = [] <-> forall x, x ∈ l -> ~ P x.
Proof.
  split.
  - intros E x Hx HP. now apply (filter_nil_not_elem_of P l x).
  - induction l as [|a l IH]; [done|]. intros Hall.
    rewrite filter_cons_False by (apply Hall, list_elem_of_here).
    apply IH. intros x Hx. apply Hall. now apply list_elem_of_further.
Qed.

(** X13: the exit status is EXIT_SUCCESS exactly when the output file
    could be opened and no finished transfer read in the run answered with
    another status than 200 (transport failures do not count); and the
    summary never reports more broken links than completed transfers. *)
Theorem exit_status_zero_iff `{libxml2} (p : params) (rounds : list round)
    (fopen_ok : bool) :
  let st := crawl p rounds in
  (exit_status st fopen_ok = EXIT_SUCCESS <->
   fopen_ok = true
   /\ forall m, m ∈ consumed p rounds (initial p) -> http_error m = false)
  /\ (Z.of_nat (length (broken_links st)) <= complete st)%Z.
Proof.
  cbv zeta. destruct (broken_links_of_run p rounds) as [Hb Hc].
  cbv zeta in Hb, Hc. unfold exit_status, EXIT_SUCCESS, EXIT_FAILURE.
  rewrite Hb, Hc, !length_map. split.
  - destruct fopen_ok; [|split; [discriminate|now intros [? _]]].
    destruct (N.of_nat _ =? 0)%N eqn:E.
    + apply N.eqb_eq in E. split; [intros _|done]. split; [done|].
      assert (E' : filter (fun m => http_error m = true)
                     (consumed p rounds (initial p)) = []).
      { apply length_zero_iff_nil. lia. }
      intros m Hm. rewrite filter_nil_iff in E'. specialize (E' m Hm).
      now destruct (http_error m).
    + apply N.eqb_neq in E. split; [discriminate|]. intros [_ Hall].
      exfalso. apply E.
      assert (E' : filter (fun m => http_error m = true)
                     (consumed p rounds (initial p)) = []).
      { apply filter_nil_iff. intros m Hm. rewrite (Hall m Hm).
        discriminate. }
      now rewrite E'.
  - apply Nat2Z.inj_le. clear.
    induction (consumed p rounds (initial p)) as [|m l IH]; [done|].
    rewrite !filter_cons.
    assert (Hd : http_error m = true -> is_done m = true).
    { unfold http_error, is_done. now destruct (msg m). }
    destruct (decide (http_error m = true)) as [Hh|Hh],
             (decide (is_done m = true)) as [Hi|Hi]; cbn [length]; try lia.
    now apply Hd in Hh.
Qed.

(** X16: [has_flag] matches by prefix: an argument carries a flag when it
    begins with the short name or, the long name not being empty, with the
    long name. *)
Theorem has_flag_matches_prefixes (arg name1 name2 : string) :
  no_nul name1 = true ->
  no_nul name2 = true ->
  has_flag arg name1 name2
  = String.prefix name1 arg
    || (negb (String.eqb name2 "") && String.prefix name2 arg).
Proof.
  intros H1 H2. unfold has_flag.
  now rewrite !strncmp_prefix, strlen_zero by done.
Qed.

Lemma has_flag_matches_prefixes_witness :
  has_flag "--max-connections" "-c" "--max-con" = true
  /\ has_flag "-help" "-h" "" = true
  /\ has_flag "-V" "-v" "" = false.
Proof.
  rewrite !has_flag_matches_prefixes by reflexivity.
  repeat split.
Defined.

(** X17: when the argument loop lets the crawl start, the seed is the
    last argument, it carries no flag, and the numbers taken from the
    command line are [int]s (the per-page cap a [size_t]). *)
Theorem parsed_url_is_last_argument (argv : list string) (p : params)
    (verbose : Z) (fname : option string) :
  parse_args argv = Go (p, verbose, fname) ->
  (exists front, argv = front ++ [start_url p] /\ front <> [])
  /\ flag_of (start_url p) = no_flag
  /\ (-2147483648 <= max_con p <= 2147483647)%Z
  /\ (-2147483648 <= max_total p <= 2147483647)%Z
  /\ (-2147483648 <= max_requests p <= 2147483647)%Z
  /\ (max_link_per_page p < SIZE_MAX1)%N
  /\ (-2147483648 <= verbose <= 2147483647)%Z.
Proof.
  unfold parse_args. destruct (length argv <? 2)%nat; [discriminate|].
  destruct argv as [|a0 rest].
  - cbn. discriminate.
  - cbn [tail].
    pose proof (parse_loop_outcome (length rest) rest initial_cli
                  (le_n _) eq_refl cli_ok_initial) as Ho.
    destruct (parse_loop rest initial_cli) as [code| |c]; try discriminate.
    destruct Ho as [(A & B & C & D & E) Hurl].
    destruct (cli_start_url c) as [u|] eqn:Hu; [|discriminate].
    intros [= <- <- <-]. cbn [params_of start_url max_con max_total
                                max_requests max_link_per_page].
    destruct Hurl as [Hn|(front & u' & -> & [= ->] & Hf)]; [discriminate|].
    split_and!; try assumption; try lia.
    exists (a0 :: front). split; [reflexivity|discriminate].
Qed.

Lemma parsed_url_is_last_argument_witness :
  let argv := ["crawl"; "-t"; "5"; "-m"; "-1"; "http://www.example.com/"] in
  (exists front, argv = front ++ ["http://www.example.com/"] /\ front <> [])
  /\ flag_of "http://www.example.com/" = no_flag.
Proof.
  cbv zeta.
  destruct (parsed_url_is_last_argument
              ["crawl"; "-t"; "5"; "-m"; "-1"; "http://www.example.com/"]
              {| max_con := 200; max_total := 5; max_requests := 500;
                 max_link_per_page := 18446744073709551615;
                 follow_relative_links := 1;
                 start_url := "http://www.example.com/" |}
              0 (Some "out.gv") eq_refl) as (Hlast & Hflag & _).
  split; [exact Hlast|exact Hflag].
Defined.

(** X18: the argument loop ends the program with EXIT_SUCCESS only when
    some argument asks for the help text or the version. *)
Theorem exit_success_only_on_request (argv : list string) :
  parse_args argv = Exit EXIT_SUCCESS ->
  exists a, a ∈ tail argv /\ (flag_of a = flag_h \/ flag_of a = flag_V).
Proof.
  unfold parse_args. destruct (length argv <? 2)%nat; [discriminate|].
  pose proof (parse_loop_outcome (length (tail argv)) (tail argv)
                initial_cli (le_n _) eq_refl cli_ok_initial) as Ho.
  destruct (parse_loop (tail argv) initial_cli) as [code| |c].
  - intros [= ->]. destruct Ho as [[_ Ha]|Hf]; [exact Ha|discriminate].
  - discriminate.
  - destruct (cli_start_url c); discriminate.
Qed.

Lemma exit_success_only_on_request_witness :
  exists a, a ∈ tail ["crawl"; "-vv"; "--version"; "-t"]
            /\ (flag_of a = flag_h \/ flag_of a = flag_V).
Proof.
  apply (exit_success_only_on_request ["crawl"; "-vv"; "--version"; "-t"]).
  reflexivity.
Defined.

(** X19: [std::stoi] is reached with the null [argv[argc]] only when the
    last argument is one of the options that take a number. *)
Theorem stoi_on_null_needs_trailing_option (argv : list string) :
  parse_args argv = Undefined ->
  exists front a,
    argv = front ++ [a]
    /\ (flag_of a = flag_c \/ flag_of a = flag_t \/ flag_of a = flag_r
        \/ flag_of a = flag_m).
Proof.
  unfold parse_args. destruct (length argv <? 2)%nat; [discriminate|].
  destruct argv as [|a0 rest]; [cbn; discriminate|]. cbn [tail].
  pose proof (parse_loop_outcome (length rest) rest initial_cli
                (le_n _) eq_refl cli_ok_initial) as Ho.
  destruct (parse_loop rest initial_cli) as [code| |c].
  - discriminate.
  - intros _. destruct Ho as (front & a & -> & Hf).
    now exists (a0 :: front), a.
  - destruct (cli_start_url c); discriminate.
Qed.

Lemma stoi_on_null_needs_trailing_option_witness :
  exists front a,
    ["crawl"; "-o"; "g.gv"; "--max-total"] = front ++ [a]
    /\ (flag_of a = flag_c \/ flag_of a = flag_t \/ flag_of a = flag_r
        \/ flag_of a = flag_m).
Proof.
  apply (stoi_on_null_needs_trailing_option
           ["crawl"; "-o"; "g.gv"; "--max-total"]).
  reflexivity.
Defined.

(** ** Caps that admit nothing *)

Section ClosedCaps.

Context `{libxml2}.
Variable p : params.

Lemma classify_not_admitted st m :
  admission p st = false ->
  network (classify p st m) = network st
  /\ multi_handle (classify p st m) = multi_handle st.
Proof.
  intros Ha. unfold classify. rewrite Ha.
  destruct (result m =? CURLE_OK)%Z; [|done].
  destruct (response_code m =? 200)%Z; [|done].
  now destruct (is_html _ && _).
Qed.

Lemma seed_only_on_msg st m :
  (max_requests p <= 0 \/ max_total p <= 0)%Z ->
  (msg m = CURLMSG_DONE -> easy_handle m ∈ handles (multi_handle st)) ->
  seed_only p st -> seed_only p (on_msg p st m).
Proof.
  intros Hcap Hin (Hc & Hco & Ha & Hn).
  pose proof (counted_on_msg p st m Hin Hc) as Hc'.
  unfold seed_only. split; [exact Hc'|]. unfold on_msg in *.
  destruct (msg m); [done|]. specialize (Hin eq_refl).
  assert (Hpe : (0 <= pending st)%Z).
  { destruct Hc as [Hp _]. destruct (handles (multi_handle st));
      [inversion Hin|cbn [length] in Hp; lia]. }
  assert (Hadm : admission p st = false).
  { unfold admission. apply andb_false_iff.
    destruct Hcap; [left|right]; apply Z.ltb_ge; lia. }
  destruct (classify_not_admitted st m Hadm) as [Hnet Hmh].
  cbn [retire network multi_handle complete added curl_multi_remove_handle].
  rewrite classify_counts_complete, Hnet, Hmh. split_and!; [lia|done|done].
Qed.

Lemma seed_only_read_msgs ms : forall st,
  (max_requests p <= 0 \/ max_total p <= 0)%Z ->
  reports_attached p st ms -> seed_only p st -> seed_only p (read_msgs p st ms).
Proof.
  induction ms as [|m ms IH]; intros st Hcap Hr Hs; [exact Hs|].
  destruct Hr as [Hm Hr]. cbn [read_msgs fold_left].
  apply IH; [exact Hcap|exact Hr|]. now apply seed_only_on_msg.
Qed.

Lemma seed_only_main_loop rounds : forall st,
  (max_requests p <= 0 \/ max_total p <= 0)%Z ->
  rounds_attached p st rounds -> seed_only p st ->
  seed_only p (main_loop p rounds st).
Proof.
  induction rounds as [|r rounds IH]; intros st Hcap Hr Hs; [exact Hs|].
  cbn [main_loop rounds_attached] in *.
  destruct (negb _ && negb _); [|exact Hs].
  destruct Hr as [Hm Hr]. apply IH; [exact Hcap|exact Hr|].
  now apply seed_only_read_msgs.
Qed.

End ClosedCaps.

(** X20: with [max_requests] or [max_total] at 0 or below, a run in which
    every finished transfer reported is one of an attached handle follows no
    page: the seed is the only handle ever attached and the graph stays
    empty. *)
Theorem nonpositive_cap_fetches_seed_only `{libxml2} (p : params)
    (rounds : list round) :
  (max_requests p <= 0 \/ max_total p <= 0)%Z ->
  rounds_attached p (initial p) rounds ->
  let st := crawl p rounds in
  added (multi_handle st) = [start_url p] /\ network st = ∅.
Proof.
  intros Hcap Hr. cbv zeta.
  destruct (seed_only_main_loop p rounds (initial p) Hcap Hr)
    as (_ & _ & Ha & Hn); [|done].
  split_and!; [apply counted_initial|cbn; lia|done|done].
Qed.

Lemma nonpositive_cap_fetches_seed_only_witness :
  added (multi_handle (crawl Runs.zero_total [Runs.seed_round Sample.page5]))
  = [Sample.seed]
  /\ network (crawl Runs.zero_total [Runs.seed_round Sample.page5]) = ∅.
Proof.
  apply (nonpositive_cap_fetches_seed_only Runs.zero_total
           [Runs.seed_round Sample.page5]).
  - right. vm_compute. discriminate.
  - vm_compute. repeat split; intros _; repeat constructor.
Defined.

(** ** follow_links: the key a link gets *)

Section KeptLink.

Context `{libxml2}.
Variable p : params.
Variable url : string.

(** A candidate that passes the filters is recorded under the link
    [next_link] gave, whatever the rest of the page holds: the edge from
    [url] to it and both end points are in the graph the loop returns, and
    when it was no node before, it is in the log of attached handles. *)
Lemma follow_links_loop_keeps href rest uri count net mh l :
  (next_link p url uri href).2 = Some l ->
  (20 <= strlen l)%N ->
  is_http l = true ->
  let r := follow_links_loop p url (href :: rest) uri count net mh in
  l ∈ out_neighbors (r.1.1) url
  /\ l ∈ dom (r.1.1)
  /\ url ∈ dom (r.1.1)
  /\ (NGraph.find net l = None -> l ∈ added (r.1.2)).
Proof.
  intros Hl Hlen Hhttp. cbv zeta. cbn [follow_links_loop].
  destruct (next_link p url uri href) as [uri' link]. cbn [snd] in Hl.
  subst link. apply N.ltb_ge in Hlen. rewrite Hlen, Hhttp.
  assert (Hrest : forall count' mh1 (r : tGraph * CURLM * N),
    follow_links_loop p url rest uri' count' (insert_edge net url l) mh1 = r ->
    l ∈ out_neighbors (r.1.1) url /\ l ∈ dom (r.1.1) /\ url ∈ dom (r.1.1)
    /\ (forall h, h ∈ added mh1 -> h ∈ added (r.1.2))).
  { intros count' mh1 [[net' mh'] n] R. cbn [fst snd].
    pose proof (follow_links_loop_dom _ _ _ _ _ _ _ _ _ _ R) as Hd.
    pose proof (follow_links_loop_edges _ _ _ _ _ _ _ _ _ _ R)
      as (_ & Hsub & _).
    destruct (follow_links_loop_new_eligible _ _ _ _ _ _ _ _ _ _ R)
      as (new & Ha & _).
    rewrite dom_insert_edge in Hd.
    rewrite out_neighbors_insert_edge_eq in Hsub.
    split_and!; [set_solver|set_solver|set_solver|].
    intros h Hh. rewrite Ha. apply elem_of_app. now left. }
  destruct (NGraph.find net l) as [s|] eqn:Hf.
  - destruct (Hrest count mh _ eq_refl) as (A & B & C & _).
    split_and!; [exact A|exact B|exact C|discriminate].
  - destruct (count =? max_link_per_page p)%N.
    + cbn [fst snd]. rewrite out_neighbors_insert_edge_eq, dom_insert_edge.
      split_and!; [set_solver|set_solver|set_solver|].
      intros _. cbn. apply elem_of_app. right. apply list_elem_of_here.
    + destruct (Hrest (N.succ count)
                  (curl_multi_add_handle mh (make_handle l)) _ eq_refl)
        as (A & B & C & D).
      split_and!; [exact A|exact B|exact C|].
      intros _. apply D. cbn. apply elem_of_app. right.
      apply list_elem_of_here.
Qed.

End KeptLink.

(** C7: for every href, the link [follow_links] goes on with is the saved
    form of a URI whose fragment is cleared; two hrefs that parse to URIs
    differing in the fragment only give the same link, hence the same graph
    key and the same effect of the loop; a link that is shorter than 20
    characters or starts with neither [http://] nor [https://] is discarded:
    the loop goes on as if the href were not there; a link that passes both
    filters is the key the graph gets: the edge from the page to that very
    link and the link as a node are in the graph the loop returns, and the
    link is attached when it was no node before; and the loop puts nothing
    else into the graph or the multi handle: every node, every edge of the
    page and every handle it adds is such a fragment-free link of 20
    characters or more under [http://] or [https://] (or the page itself,
    as a node). *)
Theorem links_are_canonical_and_filtered `{libxml2} (p : params)
    (url : string) (uri : xmlURI) (href href' : option string)
    (rest : list (option string)) (count : N) (net : tGraph) (mh : CURLM) :
  let uri' := (next_link p url uri href).1 in
  let link := (next_link p url uri href).2 in
  let r := follow_links_loop p url (href :: rest) uri count net mh in
  fragment uri' = None
  /\ link = xmlSaveUri uri'
  /\ (set_fragment (xmlParseURIReference uri (resolve p url href)) None
      = set_fragment (xmlParseURIReference uri (resolve p url href')) None ->
      next_link p url uri href' = (uri', link)
      /\ follow_links_loop p url (href' :: rest) uri count net mh
         = follow_links_loop p url (href :: rest) uri count net mh)
  /\ (match link with
      | None => True
      | Some l =>
          (strlen l < 20)%N \/
          (String.prefix "http://" l = false /\
           String.prefix "https://" l = false)
      end ->
      follow_links_loop p url (href :: rest) uri count net mh
      = follow_links_loop p url rest uri' count net mh)
  /\ (forall l,
        link = Some l ->
        (20 <= strlen l)%N ->
        String.prefix "http://" l = true
        \/ String.prefix "https://" l = true ->
        l ∈ out_neighbors (r.1.1) url
        /\ l ∈ dom (r.1.1)
        /\ url ∈ dom (r.1.1)
        /\ (NGraph.find net l = None -> l ∈ added (r.1.2)))
  /\ (forall v, v ∈ dom (r.1.1) -> v ∈ dom net \/ v = url \/ eligible v)
  /\ (forall l, l ∈ out_neighbors (r.1.1) url ->
        l ∈ out_neighbors net url \/ eligible l)
  /\ (forall v, v ≠ url -> out_neighbors (r.1.1) v = out_neighbors net v)
  /\ (forall h, h ∈ added (r.1.2) -> h ∈ added mh \/ eligible h).
Proof.
  cbv zeta. split; [apply next_link_fragment|].
  split; [apply next_link_saved|]. split; [|split; [|split]].
  - intros E.
    assert (E' : next_link p url uri href' = next_link p url uri href).
    { unfold next_link. now rewrite E. }
    split; [rewrite E'; now destruct (next_link p url uri href)|].
    now apply follow_links_loop_same_link.
  - intros Hd. apply follow_links_loop_discard.
    destruct ((next_link p url uri href).2) as [l|]; [|exact I].
    destruct Hd as [Hlen|[H1 H2]]; [now left|right].
    now rewrite is_http_prefix, H1, H2.
  - intros l Hl Hlen Hpre.
    apply (follow_links_loop_keeps p url href rest uri count net mh l Hl Hlen).
    rewrite is_http_prefix. now destruct Hpre as [-> | ->]; [|apply orb_true_r].
  - destruct (follow_links_loop p url (href :: rest) uri count net mh)
      as [[net' mh'] n] eqn:R. cbn [fst snd].
    pose proof (follow_links_loop_edges _ _ _ _ _ _ _ _ _ _ R)
      as (Hfr & _ & Hnew & Hdom & Hadd).
    split_and!; try assumption.
    intros l Hl. apply Hnew in Hl as [Hl|[Hl _]]; auto.
Qed.

Lemma links_are_canonical_and_filtered_witness :
  let p := default_params Sample.seed in
  let page := "http://www.example.com/docs/page.html" in
  let r := follow_links_loop p Sample.seed
             [Some "http://www.example.com/docs/page.html#frag"]
             Sample.empty_uri 0%N ∅ curl_multi_init in
  (next_link p Sample.seed Sample.empty_uri (Some "http://x/y#frag")).2
  = Some "http://x/y"
  /\ next_link p Sample.seed Sample.empty_uri (Some "http://x/y")
     = next_link p Sample.seed Sample.empty_uri (Some "http://x/y#frag")
  /\ follow_links_loop p Sample.seed [Some page] Sample.empty_uri 0%N
       ∅ curl_multi_init
     = r
  /\ follow_links_loop p Sample.seed
       [Some "mailto:webmaster@www.example.com"] Sample.empty_uri 0%N
       ∅ curl_multi_init
     = (∅, curl_multi_init, 0%N)
  /\ follow_links_loop p Sample.seed
       [Some "http://x/y#frag"] Sample.empty_uri 0%N ∅ curl_multi_init
     = (∅, curl_multi_init, 0%N)
  /\ page ∈ out_neighbors (r.1.1) Sample.seed
  /\ page ∈ dom (r.1.1)
  /\ page ∈ added (r.1.2)
  /\ dom (r.1.1) = {[ Sample.seed; page ]}
  /\ added (r.1.2) = [page].
Proof.
  cbv zeta. split; [reflexivity|]. split.
  { pose proof (links_are_canonical_and_filtered
                  (default_params Sample.seed) Sample.seed Sample.empty_uri
                  (Some "http://x/y#frag") (Some "http://x/y") [] 0%N ∅
                  curl_multi_init) as (_ & _ & S & _).
    destruct (S eq_refl) as [E _]. exact E. }
  pose proof (links_are_canonical_and_filtered
                (default_params Sample.seed) Sample.seed Sample.empty_uri
                (Some "http://www.example.com/docs/page.html#frag")
                (Some "http://www.example.com/docs/page.html") [] 0%N ∅
                curl_multi_init) as (_ & _ & S & _ & K & _).
  split; [destruct (S eq_refl) as [_ E]; exact E|].
  split.
  { pose proof (links_are_canonical_and_filtered
                  (default_params Sample.seed) Sample.seed
                  Sample.empty_uri
                  (Some "mailto:webmaster@www.example.com") None [] 0%N ∅
                  curl_multi_init) as (_ & _ & _ & D & _).
    apply D. right. split; reflexivity. }
  split.
  { pose proof (links_are_canonical_and_filtered
                  (default_params Sample.seed) Sample.seed
                  Sample.empty_uri (Some "http://x/y#frag") None [] 0%N ∅
                  curl_multi_init) as (_ & _ & _ & D & _).
    apply D. left. reflexivity. }
  destruct (K "http://www.example.com/docs/page.html" eq_refl)
    as (A & B & _ & C).
  - vm_compute. discriminate.
  - left. reflexivity.
  - split; [exact A|]. split; [exact B|]. split; [exact (C eq_refl)|].
    split; vm_compute; reflexivity.
Defined.
